(** * Shared-canvas bouncing ball: membership, election, physics tick, projection

    Shallow embedding of [hw/task_6_bouncing_ball/mosquito/main.py].

    Python integers are unbounded, so coordinates, velocities and node ids are
    [Z].  Clock readings ([time.time()]) and the timeout [3.5] are exact
    rationals [Qc]; floating-point rounding is not modelled.  The dictionary
    [active_picos] is a [gmap] from node id to the time of the last heartbeat.
    Values decoded from the wire are [json] trees. *)

From Stdlib Require Import ZArith QArith Qcanon Ascii Lia.
From stdpp Require Import base numbers option list sorting gmap strings.

Local Open Scope Z_scope.

(** ** Configuration (section 1 of the source) *)

(** Node ids are integers; clock readings are rationals. *)
Abbreviation NodeId := Z.
Abbreviation time := Qc.

Definition TOPIC_HEARTBEAT : string := "pico/heartbeat".
Definition TOPIC_BALL_POS : string := "pico/ball_pos".

Definition SCREEN_HEIGHT : Z := 16.
Definition SCREEN_WIDTH : Z := 8.

Definition PICO_TIMEOUT_S : time := Q2Qc (7 # 2).

(** ** Canonical shared state

    The dictionary [{"pos": [x, y], "vel": [vx, vy], "total_size": [h, w],
    "order": [...]}] with integer entries. *)

Record ball_state := BallState {
  pos : Z * Z;
  vel : Z * Z;
  total_size : Z * Z;
  order : list NodeId
}.

(** [sorted(...)] on a list of integers. *)
Definition sorted (l : list Z) : list Z := merge_sort Z.le l.

(** ** The physics update of [main_physics_loop]

    [physics_update pos vel active_ids] is the body of [main_physics_loop]
    between the emptiness test on [active_ids] and the publication: it
    computes [new_state] from the position and velocity read from the cached
    state and from the sorted live ids.  The in-place updates of [pos] and
    [vel] are written as successive bindings.  The caller has checked that
    [active_ids] is not empty; on an empty list the source would divide by
    zero, and the value computed here means nothing. *)

Definition physics_update (pos vel : Z * Z) (active_ids : list NodeId)
    : ball_state :=
  let total_width := Z.of_nat (length active_ids) * SCREEN_WIDTH in
  let total_height := SCREEN_HEIGHT in
  let '(x, y) := pos in
  let '(vx, vy) := vel in
  (* pos[0] = (pos[0] + vel[0]) % total_width *)
  let x := (x + vx) `mod` total_width in
  (* pos[1] = pos[1] + vel[1] *)
  let y := y + vy in
  let '(y, vy) :=
    if y <=? 0 then (0, - vy)
    else if y >=? total_height - 1 then (total_height - 1, - vy)
    else (y, vy) in
  {| total_size := (total_height, total_width);
     pos := (x, y);
     vel := (vx, vy);
     order := active_ids |}.

(** The simulation tick on a canonical state: only [pos] and [vel] of the
    previous state are read. *)
Definition tick (st : ball_state) (active_ids : list NodeId) : ball_state :=
  physics_update (pos st) (vel st) active_ids.

(** ** Viewport projection ([update_display] and the renderer's cell) *)

(** [list.index]: position of the first occurrence. *)
Fixpoint index (v : NodeId) (l : list NodeId) : option Z :=
  match l with
  | [] => None
  | a :: l' => if decide (a = v) then Some 0 else Z.succ <$> index v l'
  end.

(** [update_display my_id st] is [None] when the function returns before
    drawing ([MY_ID not in order]); otherwise it is the triple
    [(is_on_my_screen, local_x, global_y)] handed to
    [print_terminal_display]. *)
Definition update_display (MY_ID : NodeId) (st : ball_state)
    : option (bool * Z * Z) :=
  match index MY_ID (order st) with
  | None => None
  | Some my_index =>
      let '(global_x, global_y) := pos st in
      let my_min_col := my_index * SCREEN_WIDTH in
      let my_max_col := my_index * SCREEN_WIDTH + (SCREEN_WIDTH - 1) in
      let is_on_my_screen :=
        (my_min_col <=? global_x) && (global_x <=? my_max_col) in
      let local_x := global_x - my_min_col in
      Some (is_on_my_screen, local_x, global_y)
  end.

(** The cell [print_terminal_display] marks with ['O'], as (column, row):
    none unless [is_on_my_screen]; coordinates are clamped into the buffer. *)
Definition print_terminal_display (is_on_my_screen : bool)
    (local_x global_y : Z) : option (Z * Z) :=
  if is_on_my_screen then
    let local_x := Z.max 0 (Z.min local_x (SCREEN_WIDTH - 1)) in
    let global_y := Z.max 0 (Z.min global_y (SCREEN_HEIGHT - 1)) in
    Some (local_x, global_y)
  else None.

(** The projection of the shared state on one node: the local coordinates
    of the ball when it is handed to the renderer as visible. *)
Definition project (st : ball_state) (self_id : NodeId) : option (Z * Z) :=
  match update_display self_id st with
  | Some (true, local_x, local_y) => Some (local_x, local_y)
  | _ => None
  end.

(** ** Membership table ([active_picos]) *)

(** [active_picos[pico_id] = time.time()] *)
Definition record_heartbeat (pico_id : NodeId) (now : time)
    (picos : gmap NodeId time) : gmap NodeId time :=
  <[pico_id := now]> picos.

(** One iteration of the loop of [prune_picos]. *)
Definition prune_step (now : time) (picos : gmap NodeId time)
    (pico_id : NodeId) : gmap NodeId time :=
  match picos !! pico_id with
  | Some seen =>
      if decide (PICO_TIMEOUT_S < now - seen)%Qc
      then delete pico_id picos
      else picos
  | None => picos (* unreachable: the key was listed from the table *)
  end.

(** [list(active_picos.keys())] *)
Definition keys (picos : gmap NodeId time) : list NodeId :=
  elements (dom picos).

Definition prune_picos (now : time) (picos : gmap NodeId time)
    : gmap NodeId time :=
  foldl (prune_step now) picos (keys picos).

(** ** Leader election (step 4 of [run]) *)

(** [active_ids[0]]; the caller has checked that the table is not empty. *)
Definition elect (active_ids : list NodeId) : option NodeId := head active_ids.

Definition main_pico_id (picos : gmap NodeId time) : option NodeId :=
  elect (sorted (keys picos)).

(** A run of heartbeats, in order of arrival, applied to a table. *)
Definition record_all (hbs : list (NodeId * time))
    (picos : gmap NodeId time) : gmap NodeId time :=
  foldl (λ acc hb, record_heartbeat hb.1 hb.2 acc) picos hbs.

(** The time of the most recent heartbeat of [id] in [hbs], if any. *)
Definition last_seen (hbs : list (NodeId * time)) (id : NodeId) : option time :=
  last (snd <$> filter (λ hb, hb.1 = id) hbs).

(** What happens to the table during a run: a heartbeat is recorded, or the
    table is pruned. *)
Inductive event :=
  | Heartbeat (pico_id : NodeId) (t : time)
  | Pruning (t : time).

Definition apply_event (picos : gmap NodeId time) (e : event)
    : gmap NodeId time :=
  match e with
  | Heartbeat pico_id t => record_heartbeat pico_id t picos
  | Pruning t => prune_picos t picos
  end.

Definition replay (es : list event) (picos : gmap NodeId time)
    : gmap NodeId time :=
  foldl apply_event picos es.

(** The heartbeats of a run, in order of arrival. *)
Definition heartbeats (es : list event) : list (NodeId * time) :=
  omap (λ e, match e with
             | Heartbeat pico_id t => Some (pico_id, t)
             | Pruning _ => None
             end) es.

(** No pruning of the run happens after [now]. *)
Definition pruned_by (now : time) (es : list event) : Prop :=
  Forall (λ e, match e with
               | Pruning t => (t ≤ now)%Qc
               | Heartbeat _ _ => True
               end) es.

(** ** Decoded payloads

    What [json.loads] returns.  Numbers are integers (floats are not
    modelled); an object is the list of its items, with distinct keys. *)

#[local] Unset Elimination Schemes.
Inductive json :=
  | JNull
  | JBool (b : bool)
  | JNum (n : Z)
  | JStr (s : string)
  | JArr (items : list json)
  | JObj (fields : list (string * json)).
#[local] Set Elimination Schemes.

Fixpoint assoc (k : string) (fields : list (string * json)) : option json :=
  match fields with
  | [] => None
  | (k', v) :: rest => if decide (k' = k) then Some v else assoc k rest
  end.

(** [d[k] = v] for a key that may or may not be present. *)
Fixpoint assoc_set (k : string) (v : json) (fields : list (string * json))
    : list (string * json) :=
  match fields with
  | [] => [(k, v)]
  | (k', v') :: rest =>
      if decide (k' = k) then (k, v) :: rest
      else (k', v') :: assoc_set k v rest
  end.

(** The exceptions the handler catches. *)
Inductive exn := ValueError | AttributeError | TypeError.

(** [data.get(k)]: [None] and a missing key both give [JNull]; anything but
    a dict has no [get]. *)
Definition get (data : json) (k : string) : exn + json :=
  match data with
  | JObj fields => inr (default JNull (assoc k fields))
  | _ => inl AttributeError
  end.

Definition json_of_pair (p : Z * Z) : json := JArr [JNum p.1; JNum p.2].

Definition pair_of_json (j : json) : option (Z * Z) :=
  match j with
  | JArr [JNum a; JNum b] => Some (a, b)
  | _ => None
  end.

(** The dictionary literal [new_state] of [main_physics_loop]. *)
Definition json_of_state (st : ball_state) : json :=
  JObj [("total_size", json_of_pair (total_size st));
        ("pos", json_of_pair (pos st));
        ("vel", json_of_pair (vel st));
        ("order", JArr (JNum <$> order st))].

(** ** The state of one node (section 2 of the source) *)

Record node := Node {
  active_picos : gmap NodeId time;
  current_ball_state : json
}.

(** What a call prints or sends. *)
Inductive effect :=
  | Publish (topic : string) (payload : json) (retain : bool)
  | PrintCallbackError (e : exn)
  | PrintPublishError.

(** The module-level initial value of [current_ball_state]. *)
Definition initial_ball_state (MY_ID : NodeId) : ball_state :=
  {| pos := (0, 0); vel := (1, 1);
     total_size := (SCREEN_HEIGHT, SCREEN_WIDTH); order := [MY_ID] |}.

Definition initial_node (MY_ID : NodeId) : node :=
  {| active_picos := ∅;
     current_ball_state := json_of_state (initial_ball_state MY_ID) |}.

(** ** The message handler *)

(** Outcome of [mqtt_callback].  A heartbeat whose id is a string or a
    boolean would enter the dictionary under a key that is not an integer;
    node ids are integers here, so that outcome is kept apart and carries
    the key. *)
Inductive handled :=
  | Handled (nd : node) (out : list effect)
  | ForeignKey (k : json).

Section Callback.

(** [json.loads(msg.decode('utf-8'))]; [None] when it raises. *)
Variable loads : string → option json.

Definition mqtt_callback (topic msg : string) (now : time) (nd : node)
    : handled :=
  match loads msg with
  | None => Handled nd [PrintCallbackError ValueError]
  | Some data =>
      if decide (topic = TOPIC_HEARTBEAT) then
        match get data "id" with
        | inl e => Handled nd [PrintCallbackError e]
        | inr JNull => Handled nd []
        | inr (JNum pico_id) =>
            Handled {| active_picos :=
                         record_heartbeat pico_id now (active_picos nd);
                       current_ball_state := current_ball_state nd |} []
        | inr (JArr _) | inr (JObj _) =>
            (* unhashable key *)
            Handled nd [PrintCallbackError TypeError]
        | inr k => ForeignKey k
        end
      else if decide (topic = TOPIC_BALL_POS) then
        Handled {| active_picos := active_picos nd;
                   current_ball_state := data |} []
      else Handled nd []
  end.

End Callback.

(** ** [main_physics_loop] on a node

    [publish_ok] tells whether [mqtt_client.publish] returns.  The result is
    [None] when the cached state is not a dictionary whose [pos] and [vel]
    are pairs of integers: the source then raises or computes on values that
    are not integers, which is outside this model.  When the publication
    fails, [current_ball_state] is not rebound, but the lists [pos] and
    [vel] it holds have been updated in place. *)
Definition main_physics_loop (publish_ok : bool) (nd : node)
    : option (node * list effect) :=
  match sorted (keys (active_picos nd)) with
  | [] => Some (nd, [])
  | active_ids =>
      match current_ball_state nd with
      | JObj fields =>
          xy ← assoc "pos" fields ≫= pair_of_json;
          v ← assoc "vel" fields ≫= pair_of_json;
          let new_state := physics_update xy v active_ids in
          if publish_ok then
            Some ({| active_picos := active_picos nd;
                     current_ball_state := json_of_state new_state |},
                  [Publish TOPIC_BALL_POS (json_of_state new_state) true])
          else
            let fields := assoc_set "pos" (json_of_pair (pos new_state)) fields in
            let fields := assoc_set "vel" (json_of_pair (vel new_state)) fields in
            Some ({| active_picos := active_picos nd;
                     current_ball_state := JObj fields |},
                  [PrintPublishError])
      | _ => None
      end
  end.

(** ** Timing (section 1 of the source) *)

Definition HEARTBEAT_INTERVAL_S : time := Q2Qc 1.
Definition GAME_TICK_S : time := Q2Qc (1 # 10).

(** ** [publish_heartbeat] and the body of the main loop *)

(** What the functions below send, print or drive. *)
Inductive output :=
  | Emit (e : effect)
  | PrintHeartbeatError
  | Led (on : bool)
  | Sleep (seconds : time).

(** [publish_ok] tells whether [mqtt_client.publish] returns. *)
Definition publish_heartbeat (MY_ID : NodeId) (publish_ok : bool)
    : list output :=
  if publish_ok
  then [Emit (Publish TOPIC_HEARTBEAT (JObj [("id", JNum MY_ID)]) false)]
  else [PrintHeartbeatError].

(** The variables of [run] that live across passes. *)
Record loop_vars := LoopVars {
  i_am_main : bool;
  last_heartbeat_time : time;
  last_physics_tick : time
}.

(** How the part of a pass modelled below ends: at the display logic (step
    6), or at the [continue] taken on an empty table. *)
Inductive pass_end := ToDisplay | Continue.

(** Steps 2 to 5 of one pass of the loop of [run], from [now = time.time()]
    to the end of the role branch.  [now] is the clock reading of the pass,
    [now_prune] the one [prune_picos] takes, [hb_ok] and [pub_ok] the fates
    of the two publications.  The lines that [prune_picos] prints are left
    out.  The result is [None] where [main_physics_loop] is. *)
Definition run_steps (MY_ID : NodeId) (now now_prune : time)
    (hb_ok pub_ok : bool) (nd : node) (vars : loop_vars)
    : option (node * loop_vars * list output * pass_end) :=
  (* 2. heartbeat at a fixed interval *)
  let '(out, last_hb) :=
    if decide (HEARTBEAT_INTERVAL_S < now - last_heartbeat_time vars)%Qc
    then (publish_heartbeat MY_ID hb_ok, now)
    else ([], last_heartbeat_time vars) in
  (* 3. prune *)
  let nd := {| active_picos := prune_picos now_prune (active_picos nd);
               current_ball_state := current_ball_state nd |} in
  (* 4. election *)
  if decide (active_picos nd = ∅) then
    Some (nd,
          {| i_am_main := i_am_main vars; last_heartbeat_time := last_hb;
             last_physics_tick := last_physics_tick vars |},
          out ++ [Sleep (Q2Qc (1 # 10))], Continue)
  else
    leader ← main_pico_id (active_picos nd);
    let main := bool_decide (MY_ID = leader) in
    (* 5. role *)
    if main then
      if decide (GAME_TICK_S < now - last_physics_tick vars)%Qc then
        '(nd', sent) ← main_physics_loop pub_ok nd;
        Some (nd',
              {| i_am_main := main; last_heartbeat_time := last_hb;
                 last_physics_tick := now |},
              out ++ [Led true] ++ (Emit <$> sent), ToDisplay)
      else
        Some (nd,
              {| i_am_main := main; last_heartbeat_time := last_hb;
                 last_physics_tick := last_physics_tick vars |},
              out ++ [Led true], ToDisplay)
    else
      Some (nd,
            {| i_am_main := main; last_heartbeat_time := last_hb;
               last_physics_tick := last_physics_tick vars |},
            out ++ [Led false], ToDisplay).

(** ** The terminal display on a cached state *)

(** Where a Python list of length [len] keeps index [i]: negative indices
    count from the end; [None] is an [IndexError]. *)
Definition py_position (len : nat) (i : Z) : option nat :=
  if bool_decide (0 ≤ i < Z.of_nat len) then Some (Z.to_nat i)
  else if bool_decide (- Z.of_nat len ≤ i < 0)
       then Some (Z.to_nat (Z.of_nat len + i))
       else None.

(** [buf[row][col] = c] *)
Definition set_cell (buf : list (list ascii)) (row col : Z) (c : ascii)
    : option (list (list ascii)) :=
  r ← py_position (length buf) row;
  line ← buf !! r;
  k ← py_position (length line) col;
  Some (<[r := <[k := c]> line]> buf).

(** The buffer of dots [print_terminal_display] starts from. *)
Definition blank_buffer : list (list ascii) :=
  replicate (Z.to_nat SCREEN_HEIGHT)
    (replicate (Z.to_nat SCREEN_WIDTH) "."%char).

(** The buffer [print_terminal_display] prints, row by row. *)
Definition display_buffer (is_on_my_screen : bool) (local_x global_y : Z)
    : option (list (list ascii)) :=
  if is_on_my_screen then
    let local_x := Z.max 0 (Z.min local_x (SCREEN_WIDTH - 1)) in
    let global_y := Z.max 0 (Z.min global_y (SCREEN_HEIGHT - 1)) in
    set_cell blank_buffer global_y local_x "O"%char
  else Some blank_buffer.

(** What [print_terminal_display] prints: the role in the header, the rows,
    and the position and order of the caption. *)
Record screen := Screen {
  role_main : bool;
  rows : list (list ascii);
  caption_pos : json;
  caption_order : json
}.

(** A decoded value used as an integer: a boolean counts as 0 or 1. *)
Definition as_int (j : json) : option Z :=
  match j with
  | JNum n => Some n
  | JBool b => Some (Z.b2z b)
  | _ => None
  end.

(** [items.index(n)] on decoded items; [None] is also [n not in items]. *)
Fixpoint index_of (n : Z) (items : list json) : option Z :=
  match items with
  | [] => None
  | j :: rest =>
      if decide (as_int j = Some n) then Some 0
      else Z.succ <$> index_of n rest
  end.

(** Outcome of [update_display]: it returns without printing, it prints the
    screen, or it prints the error it caught. *)
Inductive shown := NothingPrinted | PrintedScreen (s : screen) | PrintedError.

(** [update_display] on a cached state as decoded from the wire; [main] is
    the global [i_am_main]. *)
Definition update_display_cached (MY_ID : NodeId) (main : bool)
    (ball_state : json) : shown :=
  match ball_state with
  | JObj fields =>
      match default (JArr []) (assoc "order" fields) with
      | JArr items =>
          match index_of MY_ID items with
          | None => NothingPrinted
          | Some my_index =>
              match default (JArr [JNum 0; JNum 0]) (assoc "pos" fields) with
              | JArr [gx; gy] =>
                  match as_int gx with
                  | Some global_x =>
                      let my_min_col := my_index * SCREEN_WIDTH in
                      let my_max_col :=
                        my_index * SCREEN_WIDTH + (SCREEN_WIDTH - 1) in
                      let is_on_my_screen :=
                        (my_min_col <=? global_x)
                        && (global_x <=? my_max_col) in
                      let local_x := global_x - my_min_col in
                      let buf :=
                        if is_on_my_screen then
                          global_y ← as_int gy;
                          display_buffer true local_x global_y
                        else Some blank_buffer in
                      match buf with
                      | Some buf =>
                          PrintedScreen
                            {| role_main := main; rows := buf;
                               caption_pos :=
                                 default (JArr []) (assoc "pos" fields);
                               caption_order :=
                                 default (JArr []) (assoc "order" fields) |}
                      | None => PrintedError
                      end
                  | None => PrintedError
                  end
              | _ => PrintedError
              end
          end
      | JObj _ => NothingPrinted (* an integer is never a key of it *)
      | _ => PrintedError
      end
  | _ => PrintedError
  end.

(** ** The display logic of [run] and a whole pass *)

(** [a == b] on decoded values: a boolean equals the integer 0 or 1, two
    lists are equal item by item, two dicts when they have the same keys
    with equal values. *)
Fixpoint py_eq (a b : json) : bool :=
  match a, b with
  | JNull, JNull => true
  | JStr s, JStr t => bool_decide (s = t)
  | JArr l, JArr m =>
      (fix items (l m : list json) : bool :=
         match l, m with
         | [], [] => true
         | x :: l', y :: m' => py_eq x y && items l' m'
         | _, _ => false
         end) l m
  | JObj f, JObj g =>
      (length f =? length g)%nat
      && (fix entries (f : list (string * json)) : bool :=
            match f with
            | [] => true
            | (k, v) :: f' =>
                match assoc k g with
                | Some w => py_eq v w
                | None => false
                end && entries f'
            end) f
  | _, _ =>
      match as_int a, as_int b with
      | Some x, Some y => x =? y
      | _, _ => false
      end
  end.

(** [last_drawn_state], a shallow copy.  [last_drawn_state] holds the values
    the copy had when it was made; [aliased] tells that the lists under
    ["pos"] and ["vel"] of the copy are still the very lists that
    [current_ball_state] holds, so that the updates [main_physics_loop]
    makes in place show through the copy. *)
Record display_vars := DisplayVars {
  last_drawn_state : json;
  aliased : bool
}.

(** The entry [k] of [drawn] read through the list it shares with [cur]. *)
Definition shared (k : string) (cur drawn : list (string * json))
    : list (string * json) :=
  match assoc k cur, assoc k drawn with
  | Some v, Some _ => assoc_set k v drawn
  | _, _ => drawn
  end.

(** What [last_drawn_state] evaluates to when [current_ball_state] is
    [cur]. *)
Definition drawn_value (cur : json) (dv : display_vars) : json :=
  if aliased dv then
    match cur, last_drawn_state dv with
    | JObj c, JObj d => JObj (shared "vel" c (shared "pos" c d))
    | _, d => d
    end
  else last_drawn_state dv.

(** How a call ends: it returns, an exception reaches the catch-all of [run]
    (which resets the machine), or the call is outside what is modelled. *)
Inductive outcome (A : Type) :=
  | Ok (a : A)
  | Reset
  | Unmodelled.
Arguments Ok {A} a.
Arguments Reset {A}.
Arguments Unmodelled {A}.

(** Step 6 of a pass: redraw when the cached state differs from the last
    one drawn, then keep a shallow copy of it.  A dict and a list have a
    [copy] method; nothing else that [json.loads] returns has one. *)
Definition display_logic (MY_ID : NodeId) (main : bool) (cur : json)
    (dv : display_vars) : outcome (display_vars * list shown) :=
  if py_eq cur (drawn_value cur dv) then Ok (dv, [])
  else
    let printed := update_display_cached MY_ID main cur in
    match cur with
    | JObj _ => Ok ({| last_drawn_state := cur; aliased := true |}, [printed])
    | JArr _ => Ok ({| last_drawn_state := cur; aliased := false |}, [printed])
    | _ => Reset
    end.

(** The state of the loop of [run]. *)
Record loop_state := LoopState {
  ls_node : node;
  ls_vars : loop_vars;
  ls_display : display_vars
}.

(** The state [run] starts its loop from. *)
Definition initial_loop_state (MY_ID : NodeId) : loop_state :=
  {| ls_node := initial_node MY_ID;
     ls_vars := {| i_am_main := false; last_heartbeat_time := Q2Qc 0;
                   last_physics_tick := Q2Qc 0 |};
     ls_display := {| last_drawn_state := JObj []; aliased := false |} |}.

Section Pass.

(** [json.loads(msg.decode('utf-8'))]; [None] when it raises. *)
Variable loads : string → option json.

(** [mqtt_client.check_msg()]: [incoming] is the message it hands to the
    callback in this pass, if any, and [now_cb] the clock reading of the
    callback. *)
Definition check_msg (incoming : option (string * string)) (now_cb : time)
    (nd : node) : handled :=
  match incoming with
  | Some (topic, msg) => mqtt_callback loads topic msg now_cb nd
  | None => Handled nd []
  end.

(** The callback rebinds [current_ball_state]: a state message that
    parses. *)
Definition rebinds (incoming : option (string * string)) : bool :=
  match incoming with
  | Some (topic, msg) =>
      bool_decide (topic = TOPIC_BALL_POS) && bool_decide (is_Some (loads msg))
  | None => false
  end.

(** When the callback rebinds [current_ball_state] to fresh objects, the
    copy drawn last keeps the values it shows at that time and shares
    nothing any more. *)
Definition unshare (rebound : bool) (cur : json) (dv : display_vars)
    : display_vars :=
  if rebound
  then {| last_drawn_state := drawn_value cur dv; aliased := false |}
  else dv.

(** One pass of the loop of [run]. *)
Definition run_pass (MY_ID : NodeId) (incoming : option (string * string))
    (now_cb now now_prune : time) (hb_ok pub_ok : bool) (s : loop_state)
    : outcome (loop_state * list output * list shown) :=
  (* 1. incoming message *)
  match check_msg incoming now_cb (ls_node s) with
  | ForeignKey _ => Unmodelled
  | Handled nd printed =>
      let dv := unshare (rebinds incoming)
                  (current_ball_state (ls_node s)) (ls_display s) in
      (* 2 to 5 *)
      match run_steps MY_ID now now_prune hb_ok pub_ok nd (ls_vars s) with
      | None => Unmodelled
      | Some (nd', vars', out, Continue) =>
          Ok ({| ls_node := nd'; ls_vars := vars'; ls_display := dv |},
              (Emit <$> printed) ++ out, [])
      | Some (nd', vars', out, ToDisplay) =>
          (* 6. display logic *)
          match display_logic MY_ID (i_am_main vars')
                  (current_ball_state nd') dv with
          | Ok (dv', screens) =>
              Ok ({| ls_node := nd'; ls_vars := vars'; ls_display := dv' |},
                  (Emit <$> printed) ++ out ++ [Sleep (Q2Qc (1 # 100))],
                  screens)
          | Reset => Reset
          | Unmodelled => Unmodelled
          end
      end
  end.

End Pass.

(** ** Auxiliary definitions for the statements *)

(** An entry last refreshed at [t] is stale at [now]. *)
Definition stale (now t : time) : Prop := (PICO_TIMEOUT_S < now - t)%Qc.

#[global] Instance stale_dec (now t : time) : Decision (stale now t).
Proof. unfold stale. apply _. Defined.

(** The vertical step of [physics_update], on its own. *)
Definition bounce (y vy : Z) : Z * Z :=
  let y1 := y + vy in
  if y1 <=? 0 then (0, - vy)
  else if y1 >=? SCREEN_HEIGHT - 1 then (SCREEN_HEIGHT - 1, - vy)
  else (y1, vy).

(** The vertical rule in the words of the specification: the velocity is
    negated only when [y + vy] falls outside [[0, height - 1]]. *)
Definition reflects_only_outside (st : ball_state) (ids : list NodeId) : Prop :=
  let y1 := (pos st).2 + (vel st).2 in
  let st' := tick st ids in
  (y1 < 0 → (pos st').2 = 0 ∧ (vel st').2 = - (vel st).2)
  ∧ (SCREEN_HEIGHT - 1 < y1 →
     (pos st').2 = SCREEN_HEIGHT - 1 ∧ (vel st').2 = - (vel st).2)
  ∧ (0 ≤ y1 ≤ SCREEN_HEIGHT - 1 →
     (pos st').2 = y1 ∧ (vel st').2 = (vel st).2).

(** [quoted s] is [s] between double quotes. *)
Definition quoted (s : string) : string :=
  String "034"%char (s +:+ String "034"%char EmptyString).

(** Two payloads for the examples: a heartbeat with a null id, and a state
    message cut short. *)
Definition null_id_payload : string := "{" +:+ quoted "id" +:+ ": null}".
Definition cut_payload : string := "{" +:+ quoted "pos" +:+ ": [1,".

(** A parser for the examples: it knows three payloads and rejects the
    rest. *)
Definition loads_example (msg : string) : option json :=
  if decide (msg = "{}") then Some (JObj [])
  else if decide (msg = null_id_payload) then Some (JObj [("id", JNull)])
  else if decide (msg = "[1]") then Some (JArr [JNum 1])
  else None.

(** [n] ticks in a row with the same live ids. *)
Fixpoint ticks (n : nat) (st : ball_state) (ids : list NodeId) : ball_state :=
  match n with
  | O => st
  | S n => ticks n (tick st ids) ids
  end.

(** A ball inside the canvas with unit vertical speed that does not point
    out of the canvas from a boundary row. *)
Definition moving (st : ball_state) : Prop :=
  let y := (pos st).2 in
  let vy := (vel st).2 in
  0 ≤ y ≤ SCREEN_HEIGHT - 1 ∧ (vy = 1 ∨ vy = -1)
  ∧ ¬ (y = SCREEN_HEIGHT - 1 ∧ vy = 1) ∧ ¬ (y = 0 ∧ vy = -1).

(** A cell of a buffer. *)
Definition cell (buf : list (list ascii)) (r c : nat) : option ascii :=
  line ← buf !! r; line !! c.

(** The heartbeat and the tick of a pass are due. *)
Definition heartbeat_due (now : time) (vars : loop_vars) : Prop :=
  (HEARTBEAT_INTERVAL_S < now - last_heartbeat_time vars)%Qc.

Definition tick_due (now : time) (vars : loop_vars) : Prop :=
  (GAME_TICK_S < now - last_physics_tick vars)%Qc.

(** What step 2 of a pass sends or prints, and the time of the last
    heartbeat attempt after it. *)
Definition heartbeat_attempt (MY_ID : NodeId) (now : time) (hb_ok : bool)
    (vars : loop_vars) : list output :=
  if decide (HEARTBEAT_INTERVAL_S < now - last_heartbeat_time vars)%Qc
  then publish_heartbeat MY_ID hb_ok else [].

Definition heartbeat_time (now : time) (vars : loop_vars) : time :=
  if decide (HEARTBEAT_INTERVAL_S < now - last_heartbeat_time vars)%Qc
  then now else last_heartbeat_time vars.

(** [MY_ID] is the least id of a table. *)
Definition least_live (MY_ID : NodeId) (picos : gmap NodeId time) : Prop :=
  MY_ID ∈ dom picos ∧ ∀ id, id ∈ dom picos → MY_ID ≤ id.

(** A dict or a list: what has a [copy] method. *)
Definition container (j : json) : Prop :=
  match j with JObj _ | JArr _ => True | _ => False end.

(** A heartbeat whose id is a boolean or a string: the messages on which
    [mqtt_callback] answers [ForeignKey]. *)
Definition foreign_id (loads : string → option json) (topic msg : string)
    : Prop :=
  topic = TOPIC_HEARTBEAT
  ∧ ∃ data k, loads msg = Some data ∧ get data "id" = inr k
      ∧ ((∃ b, k = JBool b) ∨ (∃ s, k = JStr s)).

(** * Properties *)

(** ** Membership *)

Section Membership.

Implicit Types (picos : gmap NodeId time) (id : NodeId) (now t : time).

Lemma lookup_prune_step now picos k id :
  prune_step now picos k !! id
  = t ← picos !! id; if decide (k = id ∧ stale now t) then None else Some t.
Proof.
  unfold prune_step.
  destruct (decide (k = id)) as [->|Hne].
  - destruct (picos !! id) as [t|] eqn:E; [|exact E].
    destruct (decide (PICO_TIMEOUT_S < now - t)%Qc) as [Hs|Hs]; simpl.
    + rewrite lookup_delete_eq. by rewrite decide_True.
    + rewrite E. rewrite decide_False; [done|]. by intros [_ ?].
  - transitivity (picos !! id).
    + destruct (picos !! k) as [s|]; [|done].
      destruct (decide _); [by rewrite lookup_delete_ne|done].
    + destruct (picos !! id) as [t|]; simpl; [|done].
      rewrite decide_False; [done|tauto].
Qed.

Lemma lookup_foldl_prune now l picos id :
  foldl (prune_step now) picos l !! id
  = t ← picos !! id; if decide (id ∈ l ∧ stale now t) then None else Some t.
Proof.
  revert picos. induction l as [|k l IH]; intros picos; simpl.
  - by destruct (picos !! id).
  - rewrite IH, lookup_prune_step.
    destruct (picos !! id) as [t|]; simpl; [|done].
    destruct (decide (k = id ∧ stale now t)) as [[-> Hs]|Hn]; simpl.
    + rewrite decide_True; [done|]. split; [left|done].
    + destruct (decide (id ∈ l ∧ stale now t)) as [[Hin Hs]|Hn'].
      * rewrite decide_True; [done|]. split; [by right|done].
      * rewrite decide_False; [done|].
        intros [Hin Hs]. apply elem_of_cons in Hin as [->|Hin]; tauto.
Qed.

(** Pruning keeps exactly the entries that are not stale, and keeps their
    timestamps. *)
Lemma lookup_prune_picos now picos id :
  prune_picos now picos !! id
  = t ← picos !! id; if decide (stale now t) then None else Some t.
Proof.
  unfold prune_picos. rewrite lookup_foldl_prune.
  destruct (picos !! id) as [t|] eqn:E; simpl; [|done].
  assert (id ∈ keys picos).
  { unfold keys. rewrite elem_of_elements, elem_of_dom. by rewrite E. }
  destruct (decide (stale now t)).
  - by rewrite decide_True.
  - rewrite decide_False; [done|tauto].
Qed.

Lemma last_seen_cons k t hbs id :
  last_seen ((k, t) :: hbs) id
  = match last_seen hbs id with
    | Some t' => Some t'
    | None => if decide (k = id) then Some t else None
    end.
Proof.
  unfold last_seen. rewrite filter_cons.
  change ((k, t).1) with k.
  destruct (decide (k = id)); [|by destruct (last _)].
  by rewrite fmap_cons, last_cons.
Qed.

Lemma lookup_record_all hbs picos id :
  record_all hbs picos !! id
  = match last_seen hbs id with Some t => Some t | None => picos !! id end.
Proof.
  revert picos. induction hbs as [|[k t] hbs IH]; intros picos; [done|].
  unfold record_all in *. simpl. rewrite IH, last_seen_cons.
  unfold record_heartbeat. destruct (last_seen hbs id); [done|].
  destruct (decide (k = id)) as [->|Hne].
  - by rewrite lookup_insert_eq.
  - by rewrite lookup_insert_ne.
Qed.

(** The live set after a run of heartbeats and one pruning. *)
Lemma elem_of_dom_prune_record hbs now id :
  id ∈ dom (prune_picos now (record_all hbs ∅))
  ↔ ∃ t, last_seen hbs id = Some t ∧ (now - t ≤ PICO_TIMEOUT_S)%Qc.
Proof.
  rewrite elem_of_dom, lookup_prune_picos, lookup_record_all, lookup_empty.
  destruct (last_seen hbs id) as [t|]; simpl.
  - destruct (decide (stale now t)) as [Hs|Hs]; split.
    + by intros [??].
    + intros (t' & [= <-] & Hle). by apply Qcle_not_lt in Hle.
    + intros _. exists t. split; [done|]. by apply Qcnot_lt_le.
    + by intros _.
  - split; [by intros [??]|by intros (?&?&?)].
Qed.

Lemma last_seen_snoc hbs k t id :
  last_seen (hbs ++ [(k, t)]) id
  = if decide (k = id) then Some t else last_seen hbs id.
Proof.
  unfold last_seen. rewrite filter_app, fmap_app, filter_cons, filter_nil.
  change ((k, t).1) with k.
  destruct (decide (k = id)).
  - change (snd <$> [(k, t)]) with [t]. by rewrite last_snoc.
  - by rewrite fmap_nil, app_nil_r.
Qed.

Lemma stale_mono now now' t : (now ≤ now')%Qc → stale now t → stale now' t.
Proof.
  unfold stale. intros Hle Hs. eapply Qclt_le_trans; [exact Hs|].
  unfold Qcminus. by apply Qcplus_le_mono_r.
Qed.

(** Interleaved prunings do not change the outcome: what a table holds after
    a run is the last heartbeat of each id, unless that heartbeat is stale
    at [now] already. *)
Lemma replay_invariant es now id :
  pruned_by now es →
  match last_seen (heartbeats es) id with
  | Some t =>
      replay es ∅ !! id = Some t ∨ (replay es ∅ !! id = None ∧ stale now t)
  | None => replay es ∅ !! id = None
  end.
Proof.
  induction es as [|e es IH] using rev_ind; intros Hp; [done|].
  unfold pruned_by in *. rewrite Forall_app, Forall_singleton in Hp.
  destruct Hp as [Hp He].
  specialize (IH Hp). unfold replay, heartbeats in *.
  rewrite foldl_app, omap_app. simpl. destruct e as [k t|p]; simpl.
  - rewrite last_seen_snoc. unfold record_heartbeat.
    destruct (decide (k = id)) as [->|Hne].
    + left. apply lookup_insert_eq.
    + by rewrite lookup_insert_ne.
  - rewrite app_nil_r, lookup_prune_picos.
    destruct (last_seen _ id) as [t|].
    + destruct IH as [-> | [-> Hs]]; simpl; [|by right].
      destruct (decide (stale p t)); [right|by left].
      split; [done|]. by apply (stale_mono p).
    + by rewrite IH.
Qed.

(** The live set after any run in which heartbeats and prunings alternate,
    closed by a pruning at [now]. *)
Lemma elem_of_dom_prune_replay es now id :
  pruned_by now es →
  id ∈ dom (prune_picos now (replay es ∅))
  ↔ ∃ t, last_seen (heartbeats es) id = Some t ∧ (now - t ≤ PICO_TIMEOUT_S)%Qc.
Proof.
  intros Hp. pose proof (replay_invariant es now id Hp) as Hinv.
  rewrite elem_of_dom, lookup_prune_picos.
  destruct (last_seen (heartbeats es) id) as [t|].
  - destruct Hinv as [-> | [-> Hs]]; simpl.
    + destruct (decide (stale now t)) as [Hs|Hs]; split.
      * by intros [??].
      * intros (t' & [= <-] & Hle). by apply Qcle_not_lt in Hle.
      * intros _. exists t. split; [done|]. by apply Qcnot_lt_le.
      * by intros _.
    + split; [by intros [??]|].
      intros (t' & [= <-] & Hle). by apply Qcle_not_lt in Hle.
  - rewrite Hinv. split; [by intros [??]|by intros (?&?&?)].
Qed.

End Membership.

(** C2: after pruning at [now] a table built from any run of heartbeats, the
    live set holds no node whose most recent heartbeat is older than the
    timeout, holds every node whose most recent heartbeat is within the
    timeout, and holds nothing else; with heartbeats of 0, 1 and 2 at time 0
    and pruning at time 4 the live set is empty. *)
Theorem prune_live_set (hbs : list (NodeId * time)) (now : time) :
  let live := dom (prune_picos now (record_all hbs ∅)) in
  (∀ id t, last_seen hbs id = Some t →
           (PICO_TIMEOUT_S < now - t)%Qc → id ∉ live)
  ∧ (∀ id t, last_seen hbs id = Some t →
             (now - t ≤ PICO_TIMEOUT_S)%Qc → id ∈ live)
  ∧ (∀ id, id ∈ live → is_Some (last_seen hbs id))
  ∧ dom (prune_picos (Qc_of_Z 4)
           (record_all [(0, Qc_of_Z 0); (1, Qc_of_Z 0); (2, Qc_of_Z 0)] ∅))
    = ∅.
Proof.
  cbv zeta. split; [|split; [|split]].
  - intros id t Ht Hs. rewrite elem_of_dom_prune_record.
    intros (t' & Ht' & Hle). rewrite Ht in Ht'. injection Ht' as <-.
    by apply Qcle_not_lt in Hle.
  - intros id t Ht Hle. rewrite elem_of_dom_prune_record. eauto.
  - intros id. rewrite elem_of_dom_prune_record. intros (t & -> & _). eauto.
  - vm_compute. reflexivity.
Qed.

(** ** Election *)

Section Election.

Implicit Types (ids : list NodeId) (picos : gmap NodeId time).

(** The head of a sorted list is a lower bound of the list. *)
Lemma elect_lower_bound ids leader :
  Sorted Z.le ids → elect ids = Some leader →
  leader ∈ ids ∧ ∀ id, id ∈ ids → leader ≤ id.
Proof.
  intros Hs%Sorted_StronglySorted He; [|apply _].
  apply head_Some in He as [rest ->].
  apply StronglySorted_cons in Hs as [Hall _].
  split; [left|]. intros id [->|Hin]%elem_of_cons; [lia|].
  rewrite Forall_forall in Hall. auto.
Qed.

Lemma Sorted_filter (P : Z → Prop) `{!∀ x, Decision (P x)} ids :
  Sorted Z.le ids → Sorted Z.le (filter P ids).
Proof.
  intros Hs%Sorted_StronglySorted; [|apply _].
  apply StronglySorted_Sorted.
  induction Hs as [|x l Hl IH Hx]; [constructor|].
  rewrite filter_cons. destruct (decide (P x)); [|done].
  constructor; [done|].
  rewrite Forall_forall in *. intros y [_ Hy]%list_elem_of_filter. auto.
Qed.

Lemma sorted_Sorted (l : list Z) : Sorted Z.le (sorted l).
Proof. apply Sorted_merge_sort, _. Qed.

Lemma sorted_Permutation (l : list Z) : sorted l ≡ₚ l.
Proof. apply merge_sort_Permutation. Qed.

Lemma elem_of_sorted_keys picos id :
  id ∈ sorted (keys picos) ↔ id ∈ dom picos.
Proof. unfold keys. by rewrite sorted_Permutation, elem_of_elements. Qed.

Lemma sorted_keys_nil picos : sorted (keys picos) = [] ↔ picos = ∅.
Proof.
  rewrite <-Permutation_nil_r, sorted_Permutation. unfold keys.
  by rewrite Permutation_nil_r, elements_empty_iff, dom_empty_iff.
Qed.

(** On a table that is not empty the election returns the least key. *)
Lemma main_pico_id_minimum picos :
  picos ≠ ∅ →
  ∃ leader, main_pico_id picos = Some leader ∧ leader ∈ dom picos
            ∧ ∀ id, id ∈ dom picos → leader ≤ id.
Proof.
  intros Hne. unfold main_pico_id.
  destruct (elect (sorted (keys picos))) as [leader|] eqn:He.
  - exists leader. split; [done|].
    destruct (elect_lower_bound _ _ (sorted_Sorted _) He) as [Hin Hle].
    split; [by apply elem_of_sorted_keys|].
    intros id Hid. by apply Hle, elem_of_sorted_keys.
  - apply head_None, sorted_keys_nil in He. done.
Qed.

End Election.

(** C3: on a sorted list of live ids that is not empty, the election returns
    an element of the list that is below every other one; once that leader
    is removed from the list, the election on what remains returns the least
    remaining id, which is above the former leader. *)
Theorem elect_minimum (ids : list NodeId) :
  ids ≠ [] → Sorted Z.le ids →
  ∃ leader,
    elect ids = Some leader ∧ leader ∈ ids ∧ (∀ id, id ∈ ids → leader ≤ id)
    ∧ (let rest := filter (λ id, id ≠ leader) ids in
       rest ≠ [] →
       ∃ next, elect rest = Some next ∧ next ∈ rest
               ∧ (∀ id, id ∈ rest → next ≤ id) ∧ leader < next).
Proof.
  intros Hne Hs. destruct ids as [|leader tl] eqn:E; [done|]. rewrite <-E in *.
  assert (He : elect ids = Some leader) by by rewrite E.
  destruct (elect_lower_bound ids leader Hs He) as [Hin Hle].
  exists leader. repeat (split; [done|]).
  intros rest Hrest.
  destruct (elect rest) as [next|] eqn:Hn; [|by apply head_None in Hn].
  assert (Hsr : Sorted Z.le rest) by by apply Sorted_filter.
  destruct (elect_lower_bound rest next Hsr Hn) as [Hin' Hle'].
  exists next. repeat (split; [done|]).
  apply list_elem_of_filter in Hin' as [Hneq Hin'].
  specialize (Hle next Hin'). lia.
Qed.

Lemma elect_minimum_witness :
  elect [0; 1; 2] = Some 0
  ∧ filter (λ id, id ≠ 0) [0; 1; 2] = [1; 2]
  ∧ ∃ next, elect [1; 2] = Some next ∧ 0 < next ∧ ∀ id, id ∈ [1; 2] → next ≤ id.
Proof.
  assert (Hs : Sorted Z.le [0; 1; 2]) by (repeat constructor; lia).
  destruct (elect_minimum [0; 1; 2] ltac:(done) Hs)
    as (leader & He & _ & _ & Hrest).
  injection He as <-.
  destruct (Hrest ltac:(done)) as (next & Hn & _ & Hle & Hlt).
  split; [done|]. split; [done|]. by exists next.
Defined.

(** The two elections of the specification's example. *)
Example elect_012 : elect [0; 1; 2] = Some 0 ∧ elect [1; 2] = Some 1.
Proof. done. Qed.

(** Deleting the leader from the table hands leadership to the least of the
    remaining keys at the next election. *)
Lemma main_pico_id_delete (picos : gmap NodeId time) (leader : NodeId) :
  main_pico_id picos = Some leader → delete leader picos ≠ ∅ →
  ∃ next, main_pico_id (delete leader picos) = Some next
          ∧ leader < next ∧ next ∈ dom picos
          ∧ ∀ id, id ∈ dom picos → id ≠ leader → next ≤ id.
Proof.
  intros Hl Hne.
  destruct (main_pico_id_minimum _ Hne) as (next & Hn & Hin & Hle).
  exists next. split; [done|].
  rewrite dom_delete_L in Hin, Hle.
  apply elem_of_difference in Hin as [Hin Hneq].
  assert (Hll : leader ≤ next).
  { destruct (elect_lower_bound _ _ (sorted_Sorted _) Hl) as [_ H].
    by apply H, elem_of_sorted_keys. }
  split; [|split; [done|]].
  - assert (next ≠ leader) by set_solver. lia.
  - intros id Hid Hne'. apply Hle. set_solver.
Qed.

(** ** Physics tick *)

Example tick_wrap :
  tick (BallState (15, 3) (1, 1) (16, 16) [0; 1]) [0; 1]
  = BallState (0, 4) (1, 1) (16, 16) [0; 1].
Proof. reflexivity. Qed.

Section Tick.

Implicit Types (st : ball_state) (ids : list NodeId).

Lemma physics_update_eq x y vx vy ids :
  physics_update (x, y) (vx, vy) ids
  = {| pos := ((x + vx) `mod` (Z.of_nat (length ids) * SCREEN_WIDTH),
               (bounce y vy).1);
       vel := (vx, (bounce y vy).2);
       total_size := (SCREEN_HEIGHT,
                      Z.of_nat (length ids) * SCREEN_WIDTH);
       order := ids |}.
Proof.
  unfold physics_update, bounce. cbv zeta.
  destruct (y + vy <=? 0); [done|].
  by destruct (y + vy >=? SCREEN_HEIGHT - 1).
Qed.

Lemma tick_eq st ids :
  tick st ids
  = {| pos := (((pos st).1 + (vel st).1)
                 `mod` (Z.of_nat (length ids) * SCREEN_WIDTH),
               (bounce (pos st).2 (vel st).2).1);
       vel := ((vel st).1, (bounce (pos st).2 (vel st).2).2);
       total_size := (SCREEN_HEIGHT,
                      Z.of_nat (length ids) * SCREEN_WIDTH);
       order := ids |}.
Proof.
  unfold tick. destruct (pos st) as [x y], (vel st) as [vx vy].
  apply physics_update_eq.
Qed.

Lemma bounce_cases y vy :
  (y + vy ≤ 0 ∧ bounce y vy = (0, - vy))
  ∨ (0 < y + vy ∧ SCREEN_HEIGHT - 1 ≤ y + vy
     ∧ bounce y vy = (SCREEN_HEIGHT - 1, - vy))
  ∨ (0 < y + vy < SCREEN_HEIGHT - 1 ∧ bounce y vy = (y + vy, vy)).
Proof.
  unfold bounce. cbv zeta.
  destruct (Z.leb_spec (y + vy) 0); [by left|right].
  rewrite Z.geb_leb.
  destruct (Z.leb_spec (SCREEN_HEIGHT - 1) (y + vy)); [by left|by right].
Qed.

Lemma bounce_range y vy : 0 ≤ (bounce y vy).1 ≤ SCREEN_HEIGHT - 1.
Proof.
  destruct (bounce_cases y vy) as [[? ->]|[(?&?&->)|[? ->]]];
    unfold SCREEN_HEIGHT in *; simpl; lia.
Qed.

End Tick.

(** The bounce of the specification's example, on a whole state. *)
Example tick_bounce :
  let st := BallState (3, 15) (1, 1) (16, 8) [0] in
  tick st [0] = BallState (4, 15) (1, -1) (16, 8) [0]
  ∧ tick (tick st [0]) [0] = BallState (5, 14) (1, -1) (16, 8) [0].
Proof. done. Qed.

(** C1, as stated, fails: from row 14 with velocity 1 the ball lands on row
    15, inside the canvas, and the tick negates the velocity all the same. *)
Lemma reflects_only_outside_counterexample :
  ¬ reflects_only_outside
      {| pos := (0, 14); vel := (1, 1); total_size := (16, 8); order := [0] |}
      [0].
Proof.
  intros (_ & _ & H).
  assert (Hin : 0 ≤ 14 + 1 ≤ SCREEN_HEIGHT - 1) by done.
  destruct (H Hin) as [_ Hvy]. vm_compute in Hvy. discriminate Hvy.
Qed.

(** C1, amended: the tick sets y to 0 and negates vy when [y + vy ≤ 0],
    sets y to [height - 1] and negates vy when [y + vy ≥ height - 1], and
    otherwise advances y by vy and keeps vy; so reaching a boundary row
    negates vy as well.  From y = 15 with vy = 1 the tick gives y = 15 and
    vy = -1, and the next tick gives y = 14 with vy = -1. *)
Theorem tick_vertical (st : ball_state) (ids : list NodeId) :
  let y1 := (pos st).2 + (vel st).2 in
  let st' := tick st ids in
  (y1 ≤ 0 → (pos st').2 = 0 ∧ (vel st').2 = - (vel st).2)
  ∧ (SCREEN_HEIGHT - 1 ≤ y1 →
     (pos st').2 = SCREEN_HEIGHT - 1 ∧ (vel st').2 = - (vel st).2)
  ∧ (0 < y1 < SCREEN_HEIGHT - 1 →
     (pos st').2 = y1 ∧ (vel st').2 = (vel st).2)
  ∧ ((pos st).2 = 15 → (vel st).2 = 1 →
     (pos st').2 = 15 ∧ (vel st').2 = -1
     ∧ (pos (tick st' ids)).2 = 14 ∧ (vel (tick st' ids)).2 = -1).
Proof.
  intros y1 st'. subst y1 st'. rewrite !tick_eq. simpl.
  destruct (pos st) as [x y], (vel st) as [vx vy]. simpl.
  split; [|split; [|split]].
  - intros. destruct (bounce_cases y vy) as [[? ->]|[(?&?&->)|[? ->]]];
      simpl; unfold SCREEN_HEIGHT in *; lia.
  - intros. destruct (bounce_cases y vy) as [[? ->]|[(?&?&->)|[? ->]]];
      simpl; unfold SCREEN_HEIGHT in *; lia.
  - intros. destruct (bounce_cases y vy) as [[? ->]|[(?&?&->)|[? ->]]];
      simpl; unfold SCREEN_HEIGHT in *; lia.
  - intros -> ->. done.
Qed.

(** C4: for live ids that are not empty, the tick sets x to
    [(x + vx) mod (SCREEN_WIDTH * n)], which lies in the canvas, keeps vx (no
    reflection), and the new vertical velocity is the one the vertical rule
    gives from y and vy alone, whatever x and vx are: vy itself when
    [y + vy] is strictly between the boundary rows; with two live nodes,
    x = 15 and vx = 1 give x = 0. *)
Theorem tick_horizontal (st : ball_state) (ids : list NodeId) :
  ids ≠ [] →
  let width := SCREEN_WIDTH * Z.of_nat (length ids) in
  let st' := tick st ids in
  (pos st').1 = ((pos st).1 + (vel st).1) `mod` width
  ∧ 0 ≤ (pos st').1 < width
  ∧ (vel st').1 = (vel st).1
  ∧ (∀ st2, (pos st2).2 = (pos st).2 → (vel st2).2 = (vel st).2 →
            (vel (tick st2 ids)).2 = (vel st').2
            ∧ (pos (tick st2 ids)).2 = (pos st').2)
  ∧ (0 < (pos st).2 + (vel st).2 < SCREEN_HEIGHT - 1 →
     (vel st').2 = (vel st).2)
  ∧ (length ids = 2%nat → (pos st).1 = 15 → (vel st).1 = 1 → (pos st').1 = 0).
Proof.
  intros Hne width st'. subst width st'. rewrite tick_eq. simpl.
  assert (0 < SCREEN_WIDTH * Z.of_nat (length ids)).
  { destruct ids; [done|]. unfold SCREEN_WIDTH. simpl length. lia. }
  rewrite (Z.mul_comm (Z.of_nat _)).
  split; [done|]. split; [by apply Z.mod_pos_bound|]. split; [done|].
  split; [|split].
  - intros st2 Hy Hvy. rewrite tick_eq. simpl. by rewrite Hy, Hvy.
  - intros Hy.
    destruct (bounce_cases (pos st).2 (vel st).2)
      as [[? ->]|[(?&?&->)|[? ->]]]; simpl; lia.
  - intros -> -> ->. done.
Qed.

Lemma tick_horizontal_witness :
  let st := {| pos := (15, 3); vel := (1, 1);
               total_size := (16, 16); order := [0; 1] |} in
  (pos (tick st [0; 1])).1 = 0 ∧ (vel (tick st [0; 1])).1 = 1
  ∧ (vel (tick st [0; 1])).2 = 1.
Proof.
  intros st.
  destruct (tick_horizontal st [0; 1] ltac:(done))
    as (Hx & _ & Hvx & _ & Hvy & _).
  split; [exact Hx|]. split; [exact Hvx|]. by apply Hvy.
Defined.

(** C9: for live ids that are not empty, whatever the position and velocity
    of the input state, the state a tick produces lies inside the canvas
    that this tick computes: [0 ≤ x ≤ width - 1] and [0 ≤ y ≤ height - 1]. *)
Theorem tick_in_canvas (st : ball_state) (ids : list NodeId) :
  ids ≠ [] →
  let st' := tick st ids in
  total_size st' = (SCREEN_HEIGHT, SCREEN_WIDTH * Z.of_nat (length ids))
  ∧ 0 ≤ (pos st').1 ≤ (total_size st').2 - 1
  ∧ 0 ≤ (pos st').2 ≤ (total_size st').1 - 1.
Proof.
  intros Hne st'. subst st'. rewrite tick_eq. simpl.
  assert (0 < Z.of_nat (length ids) * SCREEN_WIDTH).
  { destruct ids; [done|]. unfold SCREEN_WIDTH. simpl length. lia. }
  split; [by rewrite Z.mul_comm|]. split; [|apply bounce_range].
  pose proof (Z.mod_pos_bound ((pos st).1 + (vel st).1)
                (Z.of_nat (length ids) * SCREEN_WIDTH)). lia.
Qed.

Lemma tick_in_canvas_witness :
  let st := {| pos := (23, 40); vel := (3, -2);
               total_size := (16, 24); order := [0; 1; 2] |} in
  let st' := tick st [1] in
  total_size st' = (16, 8) ∧ 0 ≤ (pos st').1 ≤ 7 ∧ 0 ≤ (pos st').2 ≤ 15.
Proof.
  intros st st'. exact (tick_in_canvas st [1] ltac:(done)).
Defined.

(** Two ticks in a row with the same live ids, in closed form. *)
Lemma tick_twice (st : ball_state) (ids : list NodeId) :
  let width := Z.of_nat (length ids) * SCREEN_WIDTH in
  let b1 := bounce (pos st).2 (vel st).2 in
  tick (tick st ids) ids
  = {| pos := (((pos st).1 + 2 * (vel st).1) `mod` width,
               (bounce b1.1 b1.2).1);
       vel := ((vel st).1, (bounce b1.1 b1.2).2);
       total_size := (SCREEN_HEIGHT, width);
       order := ids |}.
Proof.
  cbv zeta. rewrite (tick_eq (tick st ids)), (tick_eq st). simpl.
  rewrite Zplus_mod_idemp_l. do 3 f_equal. lia.
Qed.

(** ** The physics loop on a node *)

Section PhysicsLoop.

Implicit Types (nd : node) (picos : gmap NodeId time).

Lemma sorted_keys_length picos :
  length (sorted (keys picos)) = size picos.
Proof.
  rewrite sorted_Permutation. unfold keys.
  exact (size_dom picos).
Qed.

Lemma sorted_keys_StronglySorted picos :
  StronglySorted Z.lt (sorted (keys picos)).
Proof.
  assert (Hnd : NoDup (sorted (keys picos))).
  { rewrite sorted_Permutation. unfold keys. apply NoDup_elements. }
  pose proof (sorted_Sorted (keys picos)) as Hs.
  apply Sorted_StronglySorted in Hs; [|apply _].
  induction Hs as [|x l Hl IH Hx]; [constructor|].
  apply NoDup_cons in Hnd as [Hx' Hnd].
  constructor; [by apply IH|].
  rewrite Forall_forall in *. intros y Hy.
  assert (x ≠ y) by (by intros ->). specialize (Hx y Hy). lia.
Qed.

(** What the loop does on a canonical cached state and a table that is not
    empty. *)
Lemma main_physics_loop_canonical ok nd fields xy v :
  active_picos nd ≠ ∅ →
  current_ball_state nd = JObj fields →
  assoc "pos" fields ≫= pair_of_json = Some xy →
  assoc "vel" fields ≫= pair_of_json = Some v →
  let new_state := physics_update xy v (sorted (keys (active_picos nd))) in
  main_physics_loop ok nd
  = if ok then
      Some ({| active_picos := active_picos nd;
               current_ball_state := json_of_state new_state |},
            [Publish TOPIC_BALL_POS (json_of_state new_state) true])
    else
      Some ({| active_picos := active_picos nd;
               current_ball_state :=
                 JObj (assoc_set "vel" (json_of_pair (vel new_state))
                         (assoc_set "pos" (json_of_pair (pos new_state))
                            fields)) |},
            [PrintPublishError]).
Proof.
  intros Hne Hst Hp Hv new_state. unfold main_physics_loop.
  destruct (sorted (keys (active_picos nd))) as [|i ids] eqn:E.
  { by apply sorted_keys_nil in E. }
  rewrite Hst, Hp. simpl. rewrite Hv. simpl. by destruct ok.
Qed.

(** Every publication of the loop carries the state computed from the
    sorted keys of the table. *)
Lemma main_physics_loop_publish ok nd nd' out topic payload retain :
  main_physics_loop ok nd = Some (nd', out) →
  Publish topic payload retain ∈ out →
  ∃ xy v,
    payload
    = json_of_state (physics_update xy v (sorted (keys (active_picos nd))))
    ∧ topic = TOPIC_BALL_POS ∧ retain = true
    ∧ current_ball_state nd' = payload
    ∧ active_picos nd ≠ ∅.
Proof.
  unfold main_physics_loop. intros Hrun Hin.
  destruct (sorted (keys (active_picos nd))) as [|i ids] eqn:E.
  { injection Hrun as <- <-. by apply elem_of_nil in Hin. }
  assert (active_picos nd ≠ ∅).
  { intros H0. apply sorted_keys_nil in H0. congruence. }
  destruct (current_ball_state nd) as [| | | | |fields]; try done.
  destruct (assoc "pos" fields ≫= pair_of_json) as [xy|]; [|done].
  destruct (assoc "vel" fields ≫= pair_of_json) as [v|]; [|done].
  simpl in Hrun. destruct ok; injection Hrun as <- <-.
  - apply list_elem_of_singleton in Hin. injection Hin as -> -> ->.
    by exists xy, v.
  - apply list_elem_of_singleton in Hin. done.
Qed.

End PhysicsLoop.

(** C6: every state the physics loop publishes is a dict whose ["order"]
    entry lists the sorted keys of the table at the time of the call:
    strictly increasing, holding exactly the ids of the table; and whose
    ["total_size"] entry is the fixed height with a width of [SCREEN_WIDTH]
    times the number of those ids.  The dict has the four entries of
    [new_state], in the order of the source. *)
Theorem emitted_state_order (ok : bool) (nd nd' : node) (out : list effect)
    (topic : string) (payload : json) (retain : bool) :
  main_physics_loop ok nd = Some (nd', out) →
  Publish topic payload retain ∈ out →
  let active_ids := sorted (keys (active_picos nd)) in
  let total_width := Z.of_nat (size (active_picos nd)) * SCREEN_WIDTH in
  (∃ x y vx vy,
     payload
     = JObj [("total_size", JArr [JNum SCREEN_HEIGHT; JNum total_width]);
             ("pos", JArr [JNum x; JNum y]);
             ("vel", JArr [JNum vx; JNum vy]);
             ("order", JArr (JNum <$> active_ids))])
  ∧ get payload "order" = inr (JArr (JNum <$> active_ids))
  ∧ get payload "total_size"
    = inr (JArr [JNum SCREEN_HEIGHT; JNum total_width])
  ∧ StronglySorted Z.lt active_ids
  ∧ (∀ id, id ∈ active_ids ↔ id ∈ dom (active_picos nd))
  ∧ length active_ids = size (active_picos nd)
  ∧ ∃ st', payload = json_of_state st'
      ∧ order st' = active_ids
      ∧ total_size st'
        = (SCREEN_HEIGHT,
           SCREEN_WIDTH * Z.of_nat (size (active_picos nd))).
Proof.
  intros Hrun Hin active_ids total_width.
  destruct (main_physics_loop_publish _ _ _ _ _ _ _ Hrun Hin)
    as (xy & v & -> & _ & _ & _ & _).
  destruct xy as [x y], v as [vx vy]. rewrite physics_update_eq.
  fold active_ids. unfold json_of_state, json_of_pair.
  cbn [pos vel total_size order fst snd].
  assert (Hlen : length active_ids = size (active_picos nd))
    by apply sorted_keys_length.
  rewrite Hlen. fold total_width.
  split; [by eexists _, _, _, _|].
  split; [done|]. split; [done|].
  split; [apply sorted_keys_StronglySorted|].
  split; [apply elem_of_sorted_keys|].
  split; [done|].
  eexists {| pos := (_, _); vel := (_, _); total_size := (_, _);
             order := _ |}.
  split; [reflexivity|]. split; [done|].
  cbn [total_size]. unfold total_width. by rewrite Z.mul_comm.
Qed.

Lemma emitted_state_order_witness :
  let nd := {| active_picos := {[2 := Qc_of_Z 5; 0 := Qc_of_Z 7]};
               current_ball_state := json_of_state (initial_ball_state 0) |} in
  ∃ nd' payload,
    main_physics_loop true nd
    = Some (nd', [Publish TOPIC_BALL_POS payload true])
    ∧ get payload "order" = inr (JArr [JNum 0; JNum 2])
    ∧ get payload "total_size" = inr (JArr [JNum 16; JNum 16]).
Proof.
  intros nd.
  assert (Hrun : main_physics_loop true nd
    = Some ({| active_picos := active_picos nd;
               current_ball_state :=
                 json_of_state (physics_update (0, 0) (1, 1) [0; 2]) |},
            [Publish TOPIC_BALL_POS
               (json_of_state (physics_update (0, 0) (1, 1) [0; 2])) true]))
    by (vm_compute; reflexivity).
  destruct (emitted_state_order true nd _ _ TOPIC_BALL_POS
              (json_of_state (physics_update (0, 0) (1, 1) [0; 2])) true Hrun)
    as (_ & Ho & Hsz & _); [left|].
  eexists _, _. split; [exact Hrun|].
  split; [rewrite Ho|rewrite Hsz]; vm_compute; reflexivity.
Defined.

(** After a pruning at [now] of a table built from the heartbeats [hbs], a
    published [order] holds exactly the ids whose most recent heartbeat is
    within the timeout. *)
Lemma emitted_order_after_prune (ok : bool) (nd nd' : node)
    (out : list effect) (hbs : list (NodeId * time)) (now : time)
    (topic : string) (payload : json) (retain : bool) :
  active_picos nd = prune_picos now (record_all hbs ∅) →
  main_physics_loop ok nd = Some (nd', out) →
  Publish topic payload retain ∈ out →
  ∃ xy v ids,
    payload = json_of_state (physics_update xy v ids)
    ∧ ∀ id, id ∈ ids
            ↔ ∃ t, last_seen hbs id = Some t ∧ (now - t ≤ PICO_TIMEOUT_S)%Qc.
Proof.
  intros Htbl Hrun Hin.
  destruct (main_physics_loop_publish _ _ _ _ _ _ _ Hrun Hin)
    as (xy & v & -> & _ & _ & _ & _).
  exists xy, v, (sorted (keys (active_picos nd))). split; [done|].
  intros id. by rewrite elem_of_sorted_keys, Htbl, elem_of_dom_prune_record.
Qed.

(** C8: the outcome of a tick is fixed by the cached state and the live ids:
    two nodes with the same cached state and the same set of live ids, under
    the same fate of the publication, send the same message and cache the
    same state, whatever the heartbeat times in their tables; and two ticks
    in a row advance x by [2 * vx] modulo the width and apply the vertical
    rule twice. *)
Theorem tick_reproducible (ok : bool) (nd1 nd2 : node) :
  current_ball_state nd1 = current_ball_state nd2 →
  dom (active_picos nd1) = dom (active_picos nd2) →
  ((λ r, (current_ball_state r.1, r.2)) <$> main_physics_loop ok nd1
   = (λ r, (current_ball_state r.1, r.2)) <$> main_physics_loop ok nd2)
  ∧ ∀ st ids,
      let width := Z.of_nat (length ids) * SCREEN_WIDTH in
      let b1 := bounce (pos st).2 (vel st).2 in
      tick (tick st ids) ids
      = {| pos := (((pos st).1 + 2 * (vel st).1) `mod` width,
                   (bounce b1.1 b1.2).1);
           vel := ((vel st).1, (bounce b1.1 b1.2).2);
           total_size := (SCREEN_HEIGHT, width);
           order := ids |}.
Proof.
  intros Hst Hdom. split; [|apply tick_twice].
  unfold main_physics_loop, keys. rewrite Hst, Hdom.
  destruct (sorted (elements (dom (active_picos nd2)))) as [|i ids].
  { simpl. by rewrite Hst. }
  destruct (current_ball_state nd2) as [| | | | |fields]; try done.
  destruct (assoc "pos" fields ≫= pair_of_json) as [xy|]; [|done].
  destruct (assoc "vel" fields ≫= pair_of_json) as [v|]; [|done].
  simpl. by destruct ok.
Qed.

Lemma tick_reproducible_witness :
  let st := json_of_state (initial_ball_state 0) in
  let nd1 := {| active_picos := {[0 := Qc_of_Z 1; 1 := Qc_of_Z 2]};
                current_ball_state := st |} in
  let nd2 := {| active_picos := {[1 := Qc_of_Z 3; 0 := Q2Qc (7 # 2)]};
                current_ball_state := st |} in
  (λ r, (current_ball_state r.1, r.2)) <$> main_physics_loop true nd1
  = (λ r, (current_ball_state r.1, r.2)) <$> main_physics_loop true nd2.
Proof.
  intros st nd1 nd2.
  refine (proj1 (tick_reproducible true nd1 nd2 eq_refl _)).
  vm_compute. reflexivity.
Defined.

(** ** Viewport projection *)

Section Projection.

Implicit Types (st : ball_state) (l : list NodeId).

Lemma index_None v l : index v l = None ↔ v ∉ l.
Proof.
  induction l as [|a l IH]; simpl.
  - split; [intros _; apply not_elem_of_nil|done].
  - rewrite not_elem_of_cons. destruct (decide (a = v)) as [->|Hne].
    + split; [done|]. by intros [? _].
    + destruct (index v l); simpl; split; try done.
      * intros [_ H]. by apply IH in H.
      * intros _. split; [done|]. by apply IH.
Qed.

(** [index] returns the position of the first occurrence. *)
Lemma index_Some v l i :
  index v l = Some i →
  0 ≤ i ∧ l !! Z.to_nat i = Some v
  ∧ ∀ j, (j < Z.to_nat i)%nat → l !! j ≠ Some v.
Proof.
  revert i. induction l as [|a l IH]; intros i; simpl; [done|].
  destruct (decide (a = v)) as [->|Hne].
  - intros [= <-]. split; [done|]. split; [done|]. simpl. lia.
  - destruct (index v l) as [k|]; simpl; [|done]. intros [= <-].
    destruct (IH k eq_refl) as (Hk & Hl & Hfirst).
    rewrite Z2Nat.inj_succ by done. split; [lia|]. split; [done|].
    intros [|j] Hj; simpl; [congruence|]. apply Hfirst. lia.
Qed.

Lemma update_display_eq MY_ID st :
  update_display MY_ID st
  = i ← index MY_ID (order st);
    Some (bool_decide (i * SCREEN_WIDTH ≤ (pos st).1
                       ≤ i * SCREEN_WIDTH + (SCREEN_WIDTH - 1)),
          (pos st).1 - i * SCREEN_WIDTH, (pos st).2).
Proof.
  unfold update_display. destruct (index MY_ID (order st)) as [i|]; [|done].
  destruct (pos st) as [x y]. simpl. do 3 f_equal.
  apply eq_bool_prop_intro.
  rewrite andb_True, !Is_true_true, !Z.leb_le, bool_decide_eq_true. done.
Qed.

(** A ball handed to the renderer as visible is drawn at its local column;
    the row is the global row once clamped into the buffer. *)
Lemma print_terminal_display_visible st self_id local_x local_y :
  project st self_id = Some (local_x, local_y) →
  0 ≤ local_x ≤ SCREEN_WIDTH - 1
  ∧ print_terminal_display true local_x local_y
    = Some (local_x, Z.max 0 (Z.min local_y (SCREEN_HEIGHT - 1))).
Proof.
  unfold project. rewrite update_display_eq.
  destruct (index self_id (order st)) as [i|]; simpl; [|done].
  case_bool_decide as Hr; [|done]. intros [= <- <-].
  unfold print_terminal_display, SCREEN_WIDTH in *.
  split; [lia|]. do 2 f_equal. lia.
Qed.

End Projection.

Example project_10 :
  let st := BallState (10, 5) (1, 1) (16, 24) [0; 1; 2] in
  project st 0 = None ∧ project st 1 = Some (2, 5) ∧ project st 2 = None
  ∧ project st 7 = None.
Proof. done. Qed.

(** C5: the projection is empty exactly when [self_id] is not in [order] or
    x is outside the columns [i * SCREEN_WIDTH .. i * SCREEN_WIDTH +
    SCREEN_WIDTH - 1] of its index [i] in [order]; otherwise it is
    [(x - i * SCREEN_WIDTH, y)]; the index is a position of [self_id] in
    [order].  With order [0, 1, 2] and x = 10, node 1 sees local column 2
    and node 2 sees nothing. *)
Theorem project_spec (st : ball_state) (self_id : NodeId) :
  let x := (pos st).1 in
  let y := (pos st).2 in
  let in_range i :=
    i * SCREEN_WIDTH ≤ x ≤ i * SCREEN_WIDTH + SCREEN_WIDTH - 1 in
  (project st self_id = None
   ↔ self_id ∉ order st
     ∨ ∃ i, index self_id (order st) = Some i ∧ ¬ in_range i)
  ∧ (∀ i, index self_id (order st) = Some i → in_range i →
          project st self_id = Some (x - i * SCREEN_WIDTH, y))
  ∧ (∀ i, index self_id (order st) = Some i →
          0 ≤ i ∧ order st !! Z.to_nat i = Some self_id)
  ∧ (order st = [0; 1; 2] → x = 10 →
     project st 1 = Some (2, y) ∧ project st 2 = None).
Proof.
  intros x y in_range. subst x y in_range. cbv beta.
  unfold project. rewrite !update_display_eq.
  split; [|split; [|split]].
  - rewrite <-index_None.
    destruct (index self_id (order st)) as [i|]; simpl.
    + case_bool_decide as Hr; split.
      * done.
      * intros [?|(j & [= <-] & Hn)]; [done|]. exfalso. apply Hn. lia.
      * intros _. right. exists i. split; [done|]. lia.
      * done.
    + split; [by left|done].
  - intros i -> Hr. simpl. rewrite bool_decide_true; [done|lia].
  - intros i Hi. apply index_Some in Hi as (? & ? & _). done.
  - intros -> Hx. simpl. rewrite Hx. done.
Qed.

(** ** The message handler *)

Section Handler.

Variable loads : string → option json.

Implicit Types (nd : node) (msg topic : string) (now : time).

(** A payload that does not parse is reported and dropped, on any topic. *)
Lemma mqtt_callback_unparsed topic msg now nd :
  loads msg = None →
  mqtt_callback loads topic msg now nd
  = Handled nd [PrintCallbackError ValueError].
Proof. intros H. unfold mqtt_callback. by rewrite H. Qed.

(** A state message that parses replaces the cached state as it is. *)
Lemma mqtt_callback_state msg now nd data :
  loads msg = Some data →
  mqtt_callback loads TOPIC_BALL_POS msg now nd
  = Handled {| active_picos := active_picos nd;
               current_ball_state := data |} [].
Proof. intros H. unfold mqtt_callback. by rewrite H. Qed.

(** A heartbeat with an integer id refreshes that entry. *)
Lemma mqtt_callback_heartbeat msg now nd fields pico_id :
  loads msg = Some (JObj fields) →
  assoc "id" fields = Some (JNum pico_id) →
  mqtt_callback loads TOPIC_HEARTBEAT msg now nd
  = Handled {| active_picos := <[pico_id := now]> (active_picos nd);
               current_ball_state := current_ball_state nd |} [].
Proof. intros H Hid. unfold mqtt_callback. rewrite H. simpl. by rewrite Hid. Qed.

End Handler.

(** C7: when the payload of a message on the state topic does not parse, the
    handler returns, prints the error it caught, and leaves the node, cached
    state included, as it was. *)
Theorem malformed_state_discarded (loads : string → option json)
    (msg : string) (now : time) (nd : node) :
  loads msg = None →
  mqtt_callback loads TOPIC_BALL_POS msg now nd
  = Handled nd [PrintCallbackError ValueError].
Proof. apply mqtt_callback_unparsed. Qed.

Lemma malformed_state_discarded_witness :
  mqtt_callback loads_example TOPIC_BALL_POS cut_payload (Qc_of_Z 9)
    (initial_node 0)
  = Handled (initial_node 0) [PrintCallbackError ValueError].
Proof. apply malformed_state_discarded. reflexivity. Defined.

(** C10: a heartbeat whose payload parses to a dictionary without an ["id"]
    entry, or with a null one, leaves the node as it was: the table gets no
    new entry and no new timestamp, and nothing is printed; a payload that
    parses to something else than a dictionary leaves the node as it was
    too. *)
Theorem heartbeat_without_id (loads : string → option json)
    (msg : string) (now : time) (nd : node) (data : json) :
  loads msg = Some data →
  match data with
  | JObj fields => assoc "id" fields = None ∨ assoc "id" fields = Some JNull
  | _ => True
  end →
  ∃ out, mqtt_callback loads TOPIC_HEARTBEAT msg now nd = Handled nd out
         ∧ ∀ fields, data = JObj fields → out = [].
Proof.
  intros Hl Hid. unfold mqtt_callback. rewrite Hl. simpl.
  destruct data as [| | | | |fields]; simpl;
    try (eexists; split; [reflexivity|by intros]).
  destruct Hid as [->| ->]; simpl; by eexists.
Qed.

Lemma heartbeat_without_id_witness :
  let nd := {| active_picos := {[1 := Qc_of_Z 3]};
               current_ball_state := json_of_state (initial_ball_state 1) |} in
  (∃ out, mqtt_callback loads_example TOPIC_HEARTBEAT "{}" (Qc_of_Z 9) nd
          = Handled nd out ∧ ∀ fields, JObj [] = JObj fields → out = [])
  ∧ (∃ out, mqtt_callback loads_example TOPIC_HEARTBEAT null_id_payload
              (Qc_of_Z 9) nd
            = Handled nd out
            ∧ ∀ fields, JObj [("id", JNull)] = JObj fields → out = []).
Proof.
  intros nd. split.
  - apply (heartbeat_without_id loads_example "{}" _ nd (JObj []));
      [reflexivity|by left].
  - apply (heartbeat_without_id loads_example null_id_payload _ nd
             (JObj [("id", JNull)])); [reflexivity|by right].
Defined.

(** * Further properties of the code *)

(** ** Pruning and the handler *)

Lemma lookup_prune_picos_Some (now : time) (picos : gmap NodeId time)
    (id : NodeId) (t : time) :
  prune_picos now picos !! id = Some t
  ↔ picos !! id = Some t ∧ (now - t ≤ PICO_TIMEOUT_S)%Qc.
Proof.
  rewrite lookup_prune_picos.
  destruct (picos !! id) as [t'|]; simpl; [|by split; [|intros [??]]].
  destruct (decide (stale now t')) as [Hs|Hs]; split.
  - done.
  - intros [[= ->] Hle]. by apply Qcle_not_lt in Hle.
  - intros [= ->]. split; [done|]. by apply Qcnot_lt_le.
  - by intros [? _].
Qed.

(** X1: pruning keeps an entry, with its timestamp, exactly when the entry
    is in the table and not older than the timeout; it adds nothing. *)
Theorem prune_picos_keeps (now : time) (picos : gmap NodeId time)
    (id : NodeId) (t : time) :
  prune_picos now picos !! id = Some t
  ↔ picos !! id = Some t ∧ (now - t ≤ PICO_TIMEOUT_S)%Qc.
Proof. apply lookup_prune_picos_Some. Qed.

(** X2: pruning at a time and then at a later time leaves what one pruning
    at the later time leaves. *)
Theorem prune_picos_twice (now1 now2 : time) (picos : gmap NodeId time) :
  (now1 ≤ now2)%Qc →
  prune_picos now2 (prune_picos now1 picos) = prune_picos now2 picos.
Proof.
  intros Hle. apply map_eq. intros id. rewrite !lookup_prune_picos.
  destruct (picos !! id) as [t|]; simpl; [|done].
  destruct (decide (stale now1 t)) as [Hs|Hs]; simpl; [|done].
  rewrite decide_True; [done|]. by apply (stale_mono now1).
Qed.

Lemma prune_picos_twice_witness :
  let picos : gmap NodeId time := {[0 := Qc_of_Z 1; 1 := Qc_of_Z 3]} in
  prune_picos (Qc_of_Z 6) (prune_picos (Qc_of_Z 4) picos)
  = prune_picos (Qc_of_Z 6) picos.
Proof. intros picos. apply prune_picos_twice. by vm_compute. Defined.

(** X3: for every message other than a heartbeat whose id is a boolean or
    a string (it would enter the table under a key that is not an integer,
    which the model keeps apart), the handler returns, and it has removed no
    entry of the table, has changed no timestamp except to the time of the
    call and on the heartbeat topic, and has changed the cached state only
    on the state topic, to the decoded payload. *)
Theorem mqtt_callback_frame (loads : string → option json)
    (topic msg : string) (now : time) (nd : node) :
  ¬ foreign_id loads topic msg →
  ∃ nd' out,
    mqtt_callback loads topic msg now nd = Handled nd' out
    ∧ (∀ id t, active_picos nd !! id = Some t →
               active_picos nd' !! id = Some t
               ∨ (active_picos nd' !! id = Some now
                  ∧ topic = TOPIC_HEARTBEAT))
    ∧ (∀ id t, active_picos nd' !! id = Some t →
               active_picos nd !! id = Some t
               ∨ (t = now ∧ topic = TOPIC_HEARTBEAT))
    ∧ (current_ball_state nd' = current_ball_state nd
       ∨ (topic = TOPIC_BALL_POS
          ∧ loads msg = Some (current_ball_state nd'))).
Proof.
  unfold mqtt_callback, foreign_id. intros Hk.
  assert (Hsame :
    (∀ id t, active_picos nd !! id = Some t →
             active_picos nd !! id = Some t
             ∨ (active_picos nd !! id = Some now ∧ topic = TOPIC_HEARTBEAT))
    ∧ (∀ id t, active_picos nd !! id = Some t →
               active_picos nd !! id = Some t
               ∨ (t = now ∧ topic = TOPIC_HEARTBEAT))
    ∧ (current_ball_state nd = current_ball_state nd
       ∨ (topic = TOPIC_BALL_POS
          ∧ loads msg = Some (current_ball_state nd)))).
  { split; [by left|]. split; [by left|by left]. }
  destruct (loads msg) as [data|] eqn:Hl.
  2:{ eexists nd, _. split; [done|]. exact Hsame. }
  destruct (decide (topic = TOPIC_HEARTBEAT)) as [->|Hne].
  - destruct (get data "id") as [e|[|b|pico_id|s| |]] eqn:Hid;
      try (eexists nd, _; split; [done|]; exact Hsame).
    + destruct Hk. split; [done|]. exists data, (JBool b). eauto.
    + eexists _, _. split; [done|]. cbn [active_picos current_ball_state].
      unfold record_heartbeat.
      split; [|split; [|by left]]; intros id t Ht.
      * destruct (decide (pico_id = id)) as [->|Hne].
        -- right. by rewrite lookup_insert_eq.
        -- left. by rewrite lookup_insert_ne.
      * destruct (decide (pico_id = id)) as [->|Hne].
        -- rewrite lookup_insert_eq in Ht. injection Ht as <-. by right.
        -- rewrite lookup_insert_ne in Ht by done. by left.
    + destruct Hk. split; [done|]. exists data, (JStr s). eauto.
  - destruct (decide (topic = TOPIC_BALL_POS)) as [->|Hne'].
    + eexists _, _. split; [done|]. cbn [active_picos current_ball_state].
      split; [by left|]. split; [by left|by right].
    + eexists nd, _. split; [done|]. exact Hsame.
Qed.

Lemma mqtt_callback_frame_witness :
  let nd := {| active_picos := {[1 := Qc_of_Z 3]};
               current_ball_state := json_of_state (initial_ball_state 1) |} in
  ∃ nd' out,
    mqtt_callback loads_example TOPIC_BALL_POS "[1]" (Qc_of_Z 9) nd
    = Handled nd' out
    ∧ active_picos nd' !! 1 = Some (Qc_of_Z 3)
    ∧ current_ball_state nd' = JArr [JNum 1].
Proof.
  intros nd.
  destruct (mqtt_callback_frame loads_example TOPIC_BALL_POS "[1]"
              (Qc_of_Z 9) nd) as (nd' & out & Hcb & _ & _ & _).
  { intros [Htopic _]. by vm_compute in Htopic. }
  exists nd', out. split; [exact Hcb|].
  vm_compute in Hcb. injection Hcb as <- _. split; reflexivity.
Defined.

(** X4: a heartbeat whose payload parses to something else than a
    dictionary, or whose id is a list or a dictionary, is reported with the
    exception caught and changes nothing. *)
Theorem heartbeat_bad_shape (loads : string → option json)
    (msg : string) (now : time) (nd : node) (data : json) :
  loads msg = Some data →
  match data with
  | JObj fields =>
      match assoc "id" fields with
      | Some (JArr _) | Some (JObj _) => True
      | _ => False
      end
  | _ => True
  end →
  mqtt_callback loads TOPIC_HEARTBEAT msg now nd
  = Handled nd [PrintCallbackError
                  match data with
                  | JObj _ => TypeError
                  | _ => AttributeError
                  end].
Proof.
  intros Hl Hshape. unfold mqtt_callback. rewrite Hl. simpl.
  destruct data as [| | | | |fields]; try done. simpl.
  by destruct (assoc "id" fields) as [[| | | | |]|].
Qed.

Lemma heartbeat_bad_shape_witness :
  mqtt_callback loads_example TOPIC_HEARTBEAT "[1]" (Qc_of_Z 9)
    (initial_node 0)
  = Handled (initial_node 0) [PrintCallbackError AttributeError].
Proof.
  exact (heartbeat_bad_shape loads_example "[1]" (Qc_of_Z 9) (initial_node 0)
           (JArr [JNum 1]) eq_refl I).
Defined.

(** X5: what [publish_heartbeat] sends goes to the heartbeat topic without
    retain, and a node that gets it back records the sender at the time of
    the call; the sender then survives every pruning within the timeout,
    and on a table that held nobody else it is elected. *)
Theorem heartbeat_round_trip (loads : string → option json)
    (MY_ID : NodeId) (ok : bool) (topic msg : string) (payload : json)
    (retain : bool) (now : time) (nd : node) :
  Emit (Publish topic payload retain) ∈ publish_heartbeat MY_ID ok →
  loads msg = Some payload →
  topic = TOPIC_HEARTBEAT ∧ retain = false
  ∧ ∃ nd',
      mqtt_callback loads topic msg now nd = Handled nd' []
      ∧ active_picos nd' = <[MY_ID := now]> (active_picos nd)
      ∧ current_ball_state nd' = current_ball_state nd
      ∧ ∀ later, (later - now ≤ PICO_TIMEOUT_S)%Qc →
          prune_picos later (active_picos nd') !! MY_ID = Some now
          ∧ (active_picos nd = ∅ →
             main_pico_id (prune_picos later (active_picos nd'))
             = Some MY_ID).
Proof.
  unfold publish_heartbeat. intros Hin Hl.
  destruct ok; apply list_elem_of_singleton in Hin; [|done].
  injection Hin as -> -> ->. split; [done|]. split; [done|].
  eexists. split.
  { unfold mqtt_callback. rewrite Hl. reflexivity. }
  simpl. unfold record_heartbeat. split; [done|]. split; [done|].
  intros later Hle.
  assert (Hk : prune_picos later (<[MY_ID:=now]> (active_picos nd)) !! MY_ID
               = Some now).
  { apply lookup_prune_picos_Some. by rewrite lookup_insert_eq. }
  split; [done|]. intros Hempty.
  destruct (main_pico_id_minimum
              (prune_picos later (<[MY_ID:=now]> (active_picos nd))))
    as (leader & Hlead & Hin & _).
  { intros H0. by rewrite H0, lookup_empty in Hk. }
  rewrite Hlead. f_equal.
  apply elem_of_dom in Hin as [t Ht].
  rewrite lookup_prune_picos, Hempty in Ht.
  destruct (decide (leader = MY_ID)) as [->|Hne]; [done|].
  by rewrite lookup_insert_ne, lookup_empty in Ht.
Qed.

Lemma heartbeat_round_trip_witness :
  let msg := "{" +:+ quoted "id" +:+ ": 2}" in
  let loads := λ m, if decide (m = msg) then Some (JObj [("id", JNum 2)])
                    else None in
  ∃ nd',
    mqtt_callback loads TOPIC_HEARTBEAT msg (Qc_of_Z 10) (initial_node 2)
    = Handled nd' []
    ∧ main_pico_id (prune_picos (Qc_of_Z 13) (active_picos nd')) = Some 2.
Proof.
  intros msg loads.
  destruct (heartbeat_round_trip loads 2 true TOPIC_HEARTBEAT msg
              (JObj [("id", JNum 2)]) false (Qc_of_Z 10) (initial_node 2))
    as (_ & _ & nd' & Hcb & _ & _ & Hlater); [left|reflexivity|].
  exists nd'. split; [exact Hcb|].
  apply (Hlater (Qc_of_Z 13)); [by vm_compute|reflexivity].
Defined.

(** ** Ticks in a row *)

(** X6: a tick never changes the horizontal velocity and never changes the
    vertical speed, only the sign of the vertical velocity. *)
Theorem tick_speed (st : ball_state) (ids : list NodeId) :
  (vel (tick st ids)).1 = (vel st).1
  ∧ Z.abs (vel (tick st ids)).2 = Z.abs (vel st).2.
Proof.
  rewrite tick_eq. simpl. split; [done|].
  destruct (bounce_cases (pos st).2 (vel st).2)
    as [[? ->]|[(?&?&->)|[? ->]]]; simpl; lia.
Qed.

(** X7: a ball inside the canvas, of unit vertical speed, that does not
    point out of the canvas from a boundary row stays so after a tick, and
    the tick moves it by exactly one row. *)
Theorem tick_moving (st : ball_state) (ids : list NodeId) :
  moving st →
  moving (tick st ids) ∧ Z.abs ((pos (tick st ids)).2 - (pos st).2) = 1.
Proof.
  unfold moving. rewrite tick_eq. simpl.
  destruct (pos st) as [x y], (vel st) as [vx vy]. simpl.
  unfold SCREEN_HEIGHT. intros (Hy & Hv & H1 & H2).
  destruct (bounce_cases y vy) as [[? ->]|[(?&?&->)|[? ->]]];
    unfold SCREEN_HEIGHT in *; simpl; lia.
Qed.

Lemma tick_moving_witness :
  moving (initial_ball_state 0)
  ∧ moving (tick (initial_ball_state 0) [0])
  ∧ Z.abs ((pos (tick (initial_ball_state 0) [0])).2 - 0) = 1.
Proof.
  assert (H : moving (initial_ball_state 0)).
  { unfold moving, SCREEN_HEIGHT. simpl. lia. }
  split; [exact H|]. exact (tick_moving (initial_ball_state 0) [0] H).
Defined.

Lemma ticks_S (n : nat) (st : ball_state) (ids : list NodeId) :
  ticks (S n) st ids = tick (ticks n st ids) ids.
Proof.
  revert st. induction n as [|n IH]; intros st; [done|].
  change (ticks (S (S n)) st ids) with (ticks (S n) (tick st ids) ids).
  by rewrite IH.
Qed.

(** X8: [n + 1] ticks in a row over the same live ids take x to
    [(x + (n + 1) * vx) mod width], with vx unchanged. *)
Theorem ticks_horizontal (n : nat) (st : ball_state) (ids : list NodeId) :
  ids ≠ [] →
  let width := Z.of_nat (length ids) * SCREEN_WIDTH in
  (pos (ticks (S n) st ids)).1
  = ((pos st).1 + (Z.of_nat n + 1) * (vel st).1) `mod` width
  ∧ (vel (ticks (S n) st ids)).1 = (vel st).1.
Proof.
  intros _ width. subst width. induction n as [|n [IHx IHv]].
  - simpl ticks. rewrite tick_eq. simpl. split; [|done]. f_equal. lia.
  - rewrite ticks_S, tick_eq. cbn [pos vel fst snd].
    rewrite IHx, IHv. split; [|done].
    rewrite Zplus_mod_idemp_l. f_equal. lia.
Qed.

Lemma ticks_horizontal_witness :
  (pos (ticks 5 (initial_ball_state 0) [0; 1])).1 = 5
  ∧ (vel (ticks 5 (initial_ball_state 0) [0; 1])).1 = 1.
Proof.
  exact (ticks_horizontal 4 (initial_ball_state 0) [0; 1] ltac:(done)).
Defined.

(** The vertical part of [n] ticks is [n] bounces. *)
Lemma ticks_vertical (n : nat) (st : ball_state) (ids : list NodeId) :
  ((pos (ticks n st ids)).2, (vel (ticks n st ids)).2)
  = Nat.iter n (λ p, bounce p.1 p.2) ((pos st).2, (vel st).2).
Proof.
  induction n as [|n IH]; [done|].
  rewrite ticks_S, tick_eq. cbn [pos vel fst snd].
  change (Nat.iter (S n) ?f ?x) with (f (Nat.iter n f x)).
  rewrite <-IH. cbn [fst snd]. by destruct (bounce _ _).
Qed.

(** X9: the vertical motion has period [2 * (SCREEN_HEIGHT - 1)]: after 30
    ticks such a ball is back on its row with its vertical velocity. *)
Theorem ticks_period (st : ball_state) (ids : list NodeId) :
  moving st →
  (pos (ticks 30 st ids)).2 = (pos st).2
  ∧ (vel (ticks 30 st ids)).2 = (vel st).2.
Proof.
  intros (Hy & Hv & H1 & H2).
  pose proof (ticks_vertical 30 st ids) as H.
  generalize dependent (ticks 30 st ids). intros st30 H.
  destruct (pos st) as [x y], (vel st) as [vx vy].
  cbn [fst snd] in *. unfold SCREEN_HEIGHT in *.
  assert (Hcases : y = 0 ∨ y = 1 ∨ y = 2 ∨ y = 3 ∨ y = 4 ∨ y = 5 ∨ y = 6
                   ∨ y = 7 ∨ y = 8 ∨ y = 9 ∨ y = 10 ∨ y = 11 ∨ y = 12
                   ∨ y = 13 ∨ y = 14 ∨ y = 15) by lia.
  clear Hy.
  destruct Hv as [-> | ->];
    repeat (destruct Hcases as [-> | Hcases]); try subst y;
    first [ lia
          | match type of H with _ = ?r =>
              let v := eval vm_compute in r in change r with v in H
            end;
            by injection H as -> -> ].
Qed.

Lemma ticks_period_witness :
  (pos (ticks 30 (initial_ball_state 0) [0])).2 = 0
  ∧ (vel (ticks 30 (initial_ball_state 0) [0])).2 = 1.
Proof.
  apply (ticks_period (initial_ball_state 0) [0]).
  unfold moving, SCREEN_HEIGHT. simpl. lia.
Defined.

(** ** The physics loop on an encoded state *)

Lemma pair_of_json_of_pair (p : Z * Z) : pair_of_json (json_of_pair p) = Some p.
Proof. by destruct p. Qed.

(** The loop on the encoding of a canonical state. *)
Lemma main_physics_loop_encoded (ok : bool) (nd : node) (st : ball_state) :
  current_ball_state nd = json_of_state st →
  active_picos nd ≠ ∅ →
  let st' := tick st (sorted (keys (active_picos nd))) in
  main_physics_loop ok nd
  = if ok then
      Some ({| active_picos := active_picos nd;
               current_ball_state := json_of_state st' |},
            [Publish TOPIC_BALL_POS (json_of_state st') true])
    else
      Some ({| active_picos := active_picos nd;
               current_ball_state :=
                 json_of_state {| pos := pos st'; vel := vel st';
                                  total_size := total_size st;
                                  order := order st |} |},
            [PrintPublishError]).
Proof.
  intros Hst Hne st'.
  rewrite (main_physics_loop_canonical ok nd _ (pos st) (vel st) Hne Hst);
    [|simpl; apply pair_of_json_of_pair..].
  by destruct ok.
Qed.

(** X10: on a table that is not empty and a cached state that encodes a
    canonical state, a loop whose publication succeeds sends and caches the
    encoding of the tick of that state over the sorted ids of the table,
    with retain, on the state topic, and nothing else. *)
Theorem main_physics_loop_round_trip (nd : node) (st : ball_state) :
  current_ball_state nd = json_of_state st →
  active_picos nd ≠ ∅ →
  let st' := tick st (sorted (keys (active_picos nd))) in
  main_physics_loop true nd
  = Some ({| active_picos := active_picos nd;
             current_ball_state := json_of_state st' |},
          [Publish TOPIC_BALL_POS (json_of_state st') true]).
Proof. intros Hst Hne. exact (main_physics_loop_encoded true nd st Hst Hne). Qed.

Lemma main_physics_loop_round_trip_witness :
  let nd := {| active_picos := {[0 := Qc_of_Z 7; 1 := Qc_of_Z 8]};
               current_ball_state :=
                 json_of_state (BallState (15, 14) (1, 1) (16, 8) [0]) |} in
  main_physics_loop true nd
  = Some ({| active_picos := active_picos nd;
             current_ball_state :=
               json_of_state (BallState (0, 15) (1, -1) (16, 16) [0; 1]) |},
          [Publish TOPIC_BALL_POS
             (json_of_state (BallState (0, 15) (1, -1) (16, 16) [0; 1]))
             true]).
Proof.
  intros nd.
  exact (main_physics_loop_round_trip nd
           (BallState (15, 14) (1, 1) (16, 8) [0]) eq_refl ltac:(done)).
Defined.

(** X11: when the publication fails, the error is printed and nothing is
    sent, yet the cached state has moved: it holds the position and the
    velocity of the tick, with the size and the order it had before. *)
Theorem main_physics_loop_publish_fails (nd : node) (st : ball_state) :
  current_ball_state nd = json_of_state st →
  active_picos nd ≠ ∅ →
  let st' := tick st (sorted (keys (active_picos nd))) in
  main_physics_loop false nd
  = Some ({| active_picos := active_picos nd;
             current_ball_state :=
               json_of_state {| pos := pos st'; vel := vel st';
                                total_size := total_size st;
                                order := order st |} |},
          [PrintPublishError]).
Proof. intros Hst Hne. exact (main_physics_loop_encoded false nd st Hst Hne). Qed.

Lemma main_physics_loop_publish_fails_witness :
  let nd := {| active_picos := {[0 := Qc_of_Z 7; 1 := Qc_of_Z 8]};
               current_ball_state :=
                 json_of_state (BallState (15, 14) (1, 1) (16, 8) [0]) |} in
  main_physics_loop false nd
  = Some ({| active_picos := active_picos nd;
             current_ball_state :=
               json_of_state (BallState (0, 15) (1, -1) (16, 8) [0]) |},
          [PrintPublishError]).
Proof.
  intros nd.
  exact (main_physics_loop_publish_fails nd
           (BallState (15, 14) (1, 1) (16, 8) [0]) eq_refl ltac:(done)).
Defined.

(** X12: a node that receives what a leader published and then runs the
    physics loop itself goes on from the leader's state: it publishes the
    tick, over its own live ids, of the state the leader published. *)
Theorem leader_handover (loads : string → option json) (leader node_ : node)
    (st : ball_state) (leader' : node) (out : list effect)
    (topic msg : string) (payload : json) (retain : bool) (now : time) :
  current_ball_state leader = json_of_state st →
  main_physics_loop true leader = Some (leader', out) →
  Publish topic payload retain ∈ out →
  loads msg = Some payload →
  active_picos node_ ≠ ∅ →
  let st1 := tick st (sorted (keys (active_picos leader))) in
  let st2 := tick st1 (sorted (keys (active_picos node_))) in
  let received := {| active_picos := active_picos node_;
                     current_ball_state := json_of_state st1 |} in
  mqtt_callback loads topic msg now node_ = Handled received []
  ∧ main_physics_loop true received
    = Some ({| active_picos := active_picos node_;
               current_ball_state := json_of_state st2 |},
            [Publish TOPIC_BALL_POS (json_of_state st2) true]).
Proof.
  intros Hst Hrun Hin Hl Hne st1 st2 received.
  destruct (main_physics_loop_publish _ _ _ _ _ _ _ Hrun Hin)
    as (xy & v & Hp & -> & _ & _ & Hnel).
  rewrite (main_physics_loop_encoded true leader st Hst Hnel) in Hrun.
  injection Hrun as <- <-.
  apply list_elem_of_singleton in Hin. injection Hin as ->.
  split.
  - unfold mqtt_callback. by rewrite Hl.
  - by apply (main_physics_loop_encoded true received st1).
Qed.

Lemma leader_handover_witness :
  let msg := "state" in
  let st := BallState (15, 14) (1, 1) (16, 8) [0] in
  let st1 := BallState (0, 15) (1, -1) (16, 16) [0; 1] in
  let loads := λ m, if decide (m = msg) then Some (json_of_state st1)
                    else None in
  let leader := {| active_picos := {[0 := Qc_of_Z 7; 1 := Qc_of_Z 8]};
                   current_ball_state := json_of_state st |} in
  let node_ := {| active_picos := {[1 := Qc_of_Z 8]};
                  current_ball_state := json_of_state (initial_ball_state 1) |} in
  main_physics_loop true
    {| active_picos := active_picos node_;
       current_ball_state := json_of_state st1 |}
  = Some ({| active_picos := active_picos node_;
             current_ball_state :=
               json_of_state (BallState (1, 14) (1, -1) (16, 8) [1]) |},
          [Publish TOPIC_BALL_POS
             (json_of_state (BallState (1, 14) (1, -1) (16, 8) [1])) true]).
Proof.
  intros msg st st1 loads leader node_.
  exact (proj2 (leader_handover loads leader node_ st
                  {| active_picos := active_picos leader;
                     current_ball_state := json_of_state st1 |}
                  [Publish TOPIC_BALL_POS (json_of_state st1) true]
                  TOPIC_BALL_POS msg (json_of_state st1) true (Qc_of_Z 9)
                  eq_refl eq_refl ltac:(left) eq_refl ltac:(done))).
Defined.

(** ** The terminal display *)

Lemma py_position_in_range (len : nat) (i : Z) :
  0 ≤ i < Z.of_nat len → py_position len i = Some (Z.to_nat i).
Proof. intros H. unfold py_position. by rewrite bool_decide_true. Qed.

Lemma cell_blank_buffer (r c : nat) :
  (r < 16)%nat → (c < 8)%nat → cell blank_buffer r c = Some "."%char.
Proof.
  intros Hr Hc. unfold cell, blank_buffer.
  rewrite lookup_replicate_2 by (by vm_compute).
  apply lookup_replicate_2. by vm_compute.
Qed.

(** The buffer after the clamped write. *)
Lemma display_buffer_on (local_x global_y : Z) :
  let col := Z.to_nat (Z.max 0 (Z.min local_x (SCREEN_WIDTH - 1))) in
  let row := Z.to_nat (Z.max 0 (Z.min global_y (SCREEN_HEIGHT - 1))) in
  display_buffer true local_x global_y
  = Some (<[row := <[col := "O"%char]> (replicate 8 "."%char)]> blank_buffer)
  ∧ (row < 16)%nat ∧ (col < 8)%nat.
Proof.
  intros col row. subst col row. unfold display_buffer, set_cell.
  set (x := Z.max 0 (Z.min local_x (SCREEN_WIDTH - 1))).
  set (y := Z.max 0 (Z.min global_y (SCREEN_HEIGHT - 1))).
  assert (Hx : 0 ≤ x < 8) by (unfold x, SCREEN_WIDTH; lia).
  assert (Hy : 0 ≤ y < 16) by (unfold y, SCREEN_HEIGHT; lia).
  assert (Hlen : length blank_buffer = 16%nat) by done.
  rewrite Hlen, (py_position_in_range 16 y) by done. simpl.
  assert (Hrow : blank_buffer !! Z.to_nat y = Some (replicate 8 "."%char)).
  { unfold blank_buffer. apply lookup_replicate_2.
    change (Z.to_nat SCREEN_HEIGHT) with 16%nat. lia. }
  rewrite Hrow. simpl. rewrite ?length_replicate.
  rewrite (py_position_in_range 8 x) by done. simpl.
  split; [done|]. lia.
Qed.

(** X13: [print_terminal_display] never writes outside its buffer, whatever
    the coordinates it is given: the buffer printed has 16 rows of 8 cells,
    all dots, except for one ['O'] when the ball is on the screen, at the
    column and row clamped into the buffer. *)
Theorem display_buffer_cells (is_on_my_screen : bool) (local_x global_y : Z) :
  ∃ buf,
    display_buffer is_on_my_screen local_x global_y = Some buf
    ∧ length buf = 16%nat
    ∧ Forall (λ line, length line = 8%nat) buf
    ∧ ∀ r c, (r < 16)%nat → (c < 8)%nat →
        cell buf r c
        = Some (if decide (print_terminal_display is_on_my_screen
                             local_x global_y
                           = Some (Z.of_nat c, Z.of_nat r))
                then "O"%char else "."%char).
Proof.
  destruct is_on_my_screen.
  - destruct (display_buffer_on local_x global_y) as (-> & Hr & Hc).
    set (x := Z.max 0 (Z.min local_x (SCREEN_WIDTH - 1))) in *.
    set (y := Z.max 0 (Z.min global_y (SCREEN_HEIGHT - 1))) in *.
    assert (Hx : 0 ≤ x) by (unfold x; lia).
    assert (Hy : 0 ≤ y) by (unfold y; lia).
    eexists. split; [done|]. split; [by rewrite length_insert|]. split.
    { apply Forall_insert.
      - unfold blank_buffer. apply Forall_replicate. by vm_compute.
      - by rewrite length_insert, length_replicate. }
    intros r c Hr' Hc'. unfold cell, print_terminal_display. fold x y.
    destruct (decide (r = Z.to_nat y)) as [->|Hne].
    + rewrite list_lookup_insert_eq by done.
      cbv beta iota delta [mbind option_bind].
      destruct (decide (c = Z.to_nat x)) as [->|Hne].
      * rewrite list_lookup_insert_eq by (simpl; lia).
        rewrite decide_True; [done|]. f_equal. f_equal; lia.
      * rewrite list_lookup_insert_ne by done.
        rewrite lookup_replicate_2 by done.
        rewrite decide_False; [done|]. intros [= H1 H2]. lia.
    + rewrite list_lookup_insert_ne by done.
      fold (cell blank_buffer r c). rewrite cell_blank_buffer by done.
      rewrite decide_False; [done|]. intros [= H1 H2]. lia.
  - exists blank_buffer. split; [done|]. split; [done|]. split.
    { unfold blank_buffer. apply Forall_replicate. by vm_compute. }
    intros r c Hr Hc. rewrite cell_blank_buffer by done.
    by rewrite decide_False.
Qed.

Lemma index_of_encoded (n : Z) (ids : list NodeId) :
  index_of n (JNum <$> ids) = index n ids.
Proof.
  induction ids as [|a ids IH]; [done|]. csimpl. rewrite IH.
  destruct (decide (a = n)) as [->|Hne].
  - by rewrite decide_True.
  - rewrite decide_False; [done|]. by intros [= ?].
Qed.

Lemma index_of_nonneg (n : Z) (items : list json) (i : Z) :
  index_of n items = Some i → 0 ≤ i.
Proof.
  revert i. induction items as [|j items IH]; intros i; simpl; [done|].
  destruct (decide _); [by intros [= <-]|].
  destruct (index_of n items) as [k|]; simpl; [|done].
  intros [= <-]. specialize (IH k eq_refl). lia.
Qed.

(** X14: on the encoding of a canonical state, [update_display] prints
    nothing when the node is not in the order, and otherwise prints the
    buffer of the triple computed on the canonical state, the role, and the
    position and order as caption; it never ends in the error branch. *)
Theorem update_display_cached_canonical (MY_ID : NodeId) (main : bool)
    (st : ball_state) :
  update_display_cached MY_ID main (json_of_state st)
    = match update_display MY_ID st with
      | None => NothingPrinted
      | Some (is_on, local_x, global_y) =>
          match display_buffer is_on local_x global_y with
          | Some buf =>
              PrintedScreen {| role_main := main; rows := buf;
                               caption_pos := json_of_pair (pos st);
                               caption_order := JArr (JNum <$> order st) |}
          | None => PrintedError
          end
      end
  ∧ update_display_cached MY_ID main (json_of_state st) ≠ PrintedError.
Proof.
  assert (Heq : update_display_cached MY_ID main (json_of_state st)
    = match update_display MY_ID st with
      | None => NothingPrinted
      | Some (is_on, local_x, global_y) =>
          match display_buffer is_on local_x global_y with
          | Some buf =>
              PrintedScreen {| role_main := main; rows := buf;
                               caption_pos := json_of_pair (pos st);
                               caption_order := JArr (JNum <$> order st) |}
          | None => PrintedError
          end
      end).
  { unfold update_display_cached, update_display, json_of_state.
    change (assoc "order" _) with (Some (JArr (JNum <$> order st))).
    change (assoc "pos" _) with (Some (json_of_pair (pos st))).
    cbn [from_option]. unfold id. rewrite index_of_encoded.
    destruct (index MY_ID (order st)) as [i|]; [|done].
    destruct (pos st) as [x y]. simpl.
    by destruct ((i * SCREEN_WIDTH <=? x)
                 && (x <=? i * SCREEN_WIDTH + (SCREEN_WIDTH - 1))). }
  split; [exact Heq|]. rewrite Heq.
  destruct (update_display MY_ID st) as [[[is_on lx] gy]|]; [|done].
  by destruct (display_buffer_cells is_on lx gy) as (buf & -> & _).
Qed.

(** X15: [update_display] on a cached state of another shape.  A state
    that is not a dictionary ends in the error branch; a dictionary without
    ["order"] prints nothing; without ["pos"] the ball is taken at the
    origin, so the node of index 0 draws it in the top-left cell and every
    other node of the order prints dots, and the caption shows an empty
    position. *)
Theorem update_display_cached_missing (MY_ID : NodeId) (main : bool) :
  (∀ j, match j with JObj _ => False | _ => True end →
        update_display_cached MY_ID main j = PrintedError)
  ∧ (∀ fields, assoc "order" fields = None →
               update_display_cached MY_ID main (JObj fields)
               = NothingPrinted)
  ∧ (∀ fields items i,
       assoc "order" fields = Some (JArr items) →
       assoc "pos" fields = None →
       index_of MY_ID items = Some i →
       update_display_cached MY_ID main (JObj fields)
       = PrintedScreen
           {| role_main := main;
              rows := if decide (i = 0)
                      then <[0%nat := <[0%nat := "O"%char]>
                                        (replicate 8 "."%char)]> blank_buffer
                      else blank_buffer;
              caption_pos := JArr [];
              caption_order := JArr items |}).
Proof.
  split; [|split].
  - by intros [| | | | |].
  - intros fields Ho. unfold update_display_cached. by rewrite Ho.
  - intros fields items i Ho Hp Hi. unfold update_display_cached.
    rewrite Ho, Hp. cbn [from_option]. unfold id. rewrite Hi.
    pose proof (index_of_nonneg _ _ _ Hi) as Hi0.
    cbn [as_int]. unfold SCREEN_WIDTH.
    destruct (decide (i = 0)) as [->|Hne]; [done|].
    replace (i * 8 <=? 0) with false by (symmetry; apply Z.leb_gt; lia).
    done.
Qed.

(** ** One pass of the main loop *)

Lemma main_pico_id_Some (picos : gmap NodeId time) (leader : NodeId) :
  main_pico_id picos = Some leader →
  leader ∈ dom picos ∧ ∀ id, id ∈ dom picos → leader ≤ id.
Proof.
  intros He.
  destruct (elect_lower_bound _ _ (sorted_Sorted _) He) as [Hin Hle].
  split; [by apply elem_of_sorted_keys|].
  intros id Hid. by apply Hle, elem_of_sorted_keys.
Qed.

Lemma least_live_leader (MY_ID : NodeId) (picos : gmap NodeId time)
    (leader : NodeId) :
  main_pico_id picos = Some leader → (least_live MY_ID picos ↔ MY_ID = leader).
Proof.
  intros He. apply main_pico_id_Some in He as [Hin Hle].
  unfold least_live. split.
  - intros [Hin' Hle']. specialize (Hle _ Hin'). specialize (Hle' _ Hin). lia.
  - by intros ->.
Qed.

(** The four ways a pass goes through steps 2 to 5. *)
Lemma run_steps_inv (MY_ID : NodeId) (now now_prune : time)
    (hb_ok pub_ok : bool) (nd : node) (vars : loop_vars)
    (nd' : node) (vars' : loop_vars) (out : list output) (e : pass_end) :
  run_steps MY_ID now now_prune hb_ok pub_ok nd vars
  = Some (nd', vars', out, e) →
  let picos := prune_picos now_prune (active_picos nd) in
  let kept := {| active_picos := picos;
                 current_ball_state := current_ball_state nd |} in
  let attempt := heartbeat_attempt MY_ID now hb_ok vars in
  let last_hb := heartbeat_time now vars in
  (picos = ∅ ∧ e = Continue ∧ nd' = kept
   ∧ vars' = {| i_am_main := i_am_main vars; last_heartbeat_time := last_hb;
                last_physics_tick := last_physics_tick vars |}
   ∧ out = attempt ++ [Sleep (Q2Qc (1 # 10))])
  ∨ (picos ≠ ∅ ∧ e = ToDisplay ∧ ¬ least_live MY_ID picos ∧ nd' = kept
     ∧ vars' = {| i_am_main := false; last_heartbeat_time := last_hb;
                  last_physics_tick := last_physics_tick vars |}
     ∧ out = attempt ++ [Led false])
  ∨ (picos ≠ ∅ ∧ e = ToDisplay ∧ least_live MY_ID picos
     ∧ ¬ tick_due now vars ∧ nd' = kept
     ∧ vars' = {| i_am_main := true; last_heartbeat_time := last_hb;
                  last_physics_tick := last_physics_tick vars |}
     ∧ out = attempt ++ [Led true])
  ∨ (picos ≠ ∅ ∧ e = ToDisplay ∧ least_live MY_ID picos ∧ tick_due now vars
     ∧ vars' = {| i_am_main := true; last_heartbeat_time := last_hb;
                  last_physics_tick := now |}
     ∧ ∃ sent, main_physics_loop pub_ok kept = Some (nd', sent)
               ∧ out = attempt ++ [Led true] ++ (Emit <$> sent)).
Proof.
  intros Hrun picos kept attempt last_hb. unfold run_steps in Hrun.
  assert (Hpair :
    (if decide (HEARTBEAT_INTERVAL_S < now - last_heartbeat_time vars)%Qc
     then (publish_heartbeat MY_ID hb_ok, now)
     else ([], last_heartbeat_time vars)) = (attempt, last_hb)).
  { unfold attempt, last_hb, heartbeat_attempt, heartbeat_time.
    by destruct (decide _). }
  rewrite Hpair in Hrun. cbn [active_picos] in Hrun. fold picos in Hrun.
  fold kept in Hrun.
  destruct (decide (picos = ∅)) as [He|He].
  { injection Hrun as <- <- <- <-. by left. }
  destruct (main_pico_id picos) as [leader|] eqn:Hl; [|done].
  pose proof (least_live_leader MY_ID picos leader Hl) as Hll.
  simpl in Hrun. right. case_bool_decide as Hm.
  - right. destruct (decide (GAME_TICK_S < now - last_physics_tick vars)%Qc)
      as [Ht|Ht].
    + right.
      destruct (main_physics_loop pub_ok kept) as [[nd1 sent]|] eqn:Hp;
        [|done].
      simpl in Hrun. injection Hrun as <- <- <- <-.
      split; [done|]. split; [done|]. split; [by apply Hll|].
      split; [done|]. split; [done|]. by exists sent.
    + left. injection Hrun as <- <- <- <-.
      split; [done|]. split; [done|]. split; [by apply Hll|]. done.
  - left. injection Hrun as <- <- <- <-.
    split; [done|]. split; [done|]. split; [|done].
    intros H. by apply Hll in H.
Qed.

Lemma main_physics_loop_table (ok : bool) (nd nd' : node) (out : list effect) :
  main_physics_loop ok nd = Some (nd', out) →
  active_picos nd' = active_picos nd.
Proof.
  unfold main_physics_loop. intros Hrun.
  destruct (sorted (keys (active_picos nd))); [by injection Hrun as <- _|].
  destruct (current_ball_state nd) as [| | | | |fields]; try done.
  destruct (assoc "pos" fields ≫= pair_of_json) as [xy|]; [|done].
  destruct (assoc "vel" fields ≫= pair_of_json) as [v|]; [|done].
  simpl in Hrun. by destruct ok; injection Hrun as <- _.
Qed.

Lemma main_physics_loop_publish_ok (ok : bool) (nd nd' : node)
    (out : list effect) (topic : string) (payload : json) (retain : bool) :
  main_physics_loop ok nd = Some (nd', out) →
  Publish topic payload retain ∈ out → ok = true.
Proof.
  unfold main_physics_loop. intros Hrun Hin.
  destruct (sorted (keys (active_picos nd))).
  { injection Hrun as _ <-. by apply elem_of_nil in Hin. }
  destruct (current_ball_state nd) as [| | | | |fields]; try done.
  destruct (assoc "pos" fields ≫= pair_of_json) as [xy|]; [|done].
  destruct (assoc "vel" fields ≫= pair_of_json) as [v|]; [|done].
  simpl in Hrun. destruct ok; [done|]. injection Hrun as _ <-.
  by apply list_elem_of_singleton in Hin.
Qed.

Lemma elem_of_heartbeat_attempt (MY_ID : NodeId) (now : time) (hb_ok : bool)
    (vars : loop_vars) (o : output) :
  o ∈ heartbeat_attempt MY_ID now hb_ok vars →
  heartbeat_due now vars
  ∧ ((hb_ok = true
      ∧ o = Emit (Publish TOPIC_HEARTBEAT (JObj [("id", JNum MY_ID)]) false))
     ∨ (hb_ok = false ∧ o = PrintHeartbeatError)).
Proof.
  unfold heartbeat_attempt, heartbeat_due, publish_heartbeat.
  destruct (decide _) as [Hd|Hd]; [|by intros ?%elem_of_nil].
  destruct hb_ok; intros ->%list_elem_of_singleton; split; auto.
Qed.

(** Where a publication found in the output of a pass comes from. *)
Lemma run_steps_published (MY_ID : NodeId) (now now_prune : time)
    (hb_ok pub_ok : bool) (nd : node) (vars : loop_vars)
    (nd' : node) (vars' : loop_vars) (out : list output) (e : pass_end)
    (topic : string) (payload : json) (retain : bool) :
  run_steps MY_ID now now_prune hb_ok pub_ok nd vars
  = Some (nd', vars', out, e) →
  Emit (Publish topic payload retain) ∈ out →
  (topic = TOPIC_HEARTBEAT ∧ retain = false
   ∧ payload = JObj [("id", JNum MY_ID)]
   ∧ hb_ok = true ∧ heartbeat_due now vars)
  ∨ (topic = TOPIC_BALL_POS ∧ retain = true
     ∧ payload = current_ball_state nd' ∧ pub_ok = true
     ∧ least_live MY_ID (prune_picos now_prune (active_picos nd))
     ∧ tick_due now vars).
Proof.
  intros Hrun Hin.
  assert (Hhb : ∀ rest,
    Emit (Publish topic payload retain)
      ∈ heartbeat_attempt MY_ID now hb_ok vars ++ rest →
    Emit (Publish topic payload retain) ∈ rest
    ∨ (topic = TOPIC_HEARTBEAT ∧ retain = false
       ∧ payload = JObj [("id", JNum MY_ID)]
       ∧ hb_ok = true ∧ heartbeat_due now vars)).
  { intros rest [H|H]%elem_of_app; [|by left]. right.
    apply elem_of_heartbeat_attempt in H as [Hd [[-> [= -> -> ->]]|[_ ?]]];
      done. }
  destruct (run_steps_inv _ _ _ _ _ _ _ _ _ _ _ Hrun)
    as [(_ & _ & _ & _ & ->)|[(_ & _ & _ & _ & _ & ->)
       |[(_ & _ & _ & _ & _ & _ & ->)
        |(_ & _ & Hll & Ht & _ & sent & Hp & ->)]]];
    apply Hhb in Hin as [Hin|Hin]; try (by left);
    try (by apply list_elem_of_singleton in Hin).
  right. apply elem_of_cons in Hin as [Hin|Hin]; [done|].
  apply list_elem_of_fmap in Hin as (eff & [= <-] & Hin).
  pose proof (main_physics_loop_publish_ok _ _ _ _ _ _ _ Hp Hin) as ->.
  destruct (main_physics_loop_publish _ _ _ _ _ _ _ Hp Hin)
    as (_ & _ & _ & -> & -> & -> & _).
  done.
Qed.

(** X16: a pass that reaches the display logic leaves the table pruned, and
    sets [i_am_main], and the LED with it, exactly when the node's own id is
    the least id of the pruned table; a node that is not in its own table
    does not take the main role. *)
Theorem run_steps_role (MY_ID : NodeId) (now now_prune : time)
    (hb_ok pub_ok : bool) (nd : node) (vars : loop_vars)
    (nd' : node) (vars' : loop_vars) (out : list output) :
  run_steps MY_ID now now_prune hb_ok pub_ok nd vars
  = Some (nd', vars', out, ToDisplay) →
  let picos := prune_picos now_prune (active_picos nd) in
  active_picos nd' = picos
  ∧ (i_am_main vars' = true ↔ least_live MY_ID picos)
  ∧ (i_am_main vars' = true → MY_ID ∈ dom picos)
  ∧ Led (i_am_main vars') ∈ out.
Proof.
  intros Hrun picos.
  destruct (run_steps_inv _ _ _ _ _ _ _ _ _ _ _ Hrun)
    as [(_ & ? & _)|[(_ & _ & Hll & -> & -> & ->)
       |[(_ & _ & Hll & _ & -> & -> & ->)
        |(_ & _ & Hll & _ & -> & sent & Hp & ->)]]]; [done|..];
    fold picos in Hll; cbn [i_am_main active_picos].
  - split; [done|]. split; [by split|]. split; [done|].
    apply elem_of_app. right. left.
  - split; [done|]. split; [by split|]. split; [by intros _; apply Hll|].
    apply elem_of_app. right. left.
  - split; [by apply main_physics_loop_table in Hp|].
    split; [by split|]. split; [by intros _; apply Hll|].
    apply elem_of_app. right. left.
Qed.

Lemma run_steps_role_witness :
  let nd := {| active_picos := {[0 := Qc_of_Z 9; 1 := Qc_of_Z 2]};
               current_ball_state := json_of_state (initial_ball_state 1) |} in
  let vars := {| i_am_main := true; last_heartbeat_time := Qc_of_Z 0;
                 last_physics_tick := Qc_of_Z 0 |} in
  ∃ nd' vars' out,
    run_steps 1 (Qc_of_Z 10) (Qc_of_Z 10) true true nd vars
    = Some (nd', vars', out, ToDisplay)
    ∧ i_am_main vars' = false ∧ Led false ∈ out.
Proof.
  intros nd vars.
  destruct (run_steps 1 (Qc_of_Z 10) (Qc_of_Z 10) true true nd vars)
    as [[[[nd' vars'] out] e]|] eqn:Hrun; [|by vm_compute in Hrun].
  assert (e = ToDisplay) as ->.
  { vm_compute in Hrun. by injection Hrun as _ _ _ <-. }
  exists nd', vars', out. split; [done|].
  destruct (run_steps_role _ _ _ _ _ _ _ _ _ _ Hrun) as (_ & _ & _ & Hled).
  assert (i_am_main vars' = false) as Hm.
  { vm_compute in Hrun. by injection Hrun as _ <- _. }
  split; [done|]. by rewrite Hm in Hled.
Defined.

(** X17: only the node whose id is the least of its pruned table, and only
    when its tick is due, publishes on the state topic, changes its cached
    state or restarts its tick timer; what it publishes is retained and is
    the state it caches. *)
Theorem run_steps_leader_only (MY_ID : NodeId) (now now_prune : time)
    (hb_ok pub_ok : bool) (nd : node) (vars : loop_vars)
    (nd' : node) (vars' : loop_vars) (out : list output) (e : pass_end) :
  run_steps MY_ID now now_prune hb_ok pub_ok nd vars
  = Some (nd', vars', out, e) →
  (∃ payload retain, Emit (Publish TOPIC_BALL_POS payload retain) ∈ out)
  ∨ current_ball_state nd' ≠ current_ball_state nd
  ∨ last_physics_tick vars' ≠ last_physics_tick vars →
  least_live MY_ID (prune_picos now_prune (active_picos nd))
  ∧ tick_due now vars
  ∧ ∀ payload retain,
      Emit (Publish TOPIC_BALL_POS payload retain) ∈ out →
      retain = true ∧ payload = current_ball_state nd'.
Proof.
  intros Hrun Hcause.
  assert (Hpub : ∀ payload retain,
    Emit (Publish TOPIC_BALL_POS payload retain) ∈ out →
    retain = true ∧ payload = current_ball_state nd'
    ∧ least_live MY_ID (prune_picos now_prune (active_picos nd))
    ∧ tick_due now vars).
  { intros payload retain Hin.
    destruct (run_steps_published _ _ _ _ _ _ _ _ _ _ _ _ _ _ Hrun Hin)
      as [(? & _)|(_ & ? & ? & _ & ? & ?)]; done. }
  assert (least_live MY_ID (prune_picos now_prune (active_picos nd))
          ∧ tick_due now vars) as [Hll Ht].
  { destruct Hcause as [(payload & retain & Hin)|Hcause].
    { by destruct (Hpub _ _ Hin) as (_ & _ & ? & ?). }
    destruct (run_steps_inv _ _ _ _ _ _ _ _ _ _ _ Hrun)
      as [(_ & _ & -> & -> & _)|[(_ & _ & _ & -> & -> & _)
         |[(_ & _ & _ & _ & -> & -> & _)
          |(_ & _ & ? & ? & _)]]]; [| | |done];
      by destruct Hcause. }
  split; [done|]. split; [done|].
  intros payload retain Hin. by destruct (Hpub _ _ Hin) as (? & ? & _).
Qed.

Lemma run_steps_leader_only_witness :
  let nd := {| active_picos := {[0 := Qc_of_Z 9; 1 := Qc_of_Z 8]};
               current_ball_state := json_of_state (initial_ball_state 0) |} in
  let vars := {| i_am_main := false; last_heartbeat_time := Qc_of_Z 0;
                 last_physics_tick := Qc_of_Z 0 |} in
  least_live 0 (prune_picos (Qc_of_Z 10) (active_picos nd))
  ∧ tick_due (Qc_of_Z 10) vars.
Proof.
  intros nd vars.
  destruct (run_steps 0 (Qc_of_Z 10) (Qc_of_Z 10) true true nd vars)
    as [[[[nd' vars'] out] e]|] eqn:Hrun; [|by vm_compute in Hrun].
  destruct (run_steps_leader_only _ _ _ _ _ _ _ _ _ _ _ Hrun) as (? & ? & _);
    [|done].
  right. left. vm_compute in Hrun. injection Hrun as <- _ _ _. done.
Defined.

(** X18: when every entry of the table is older than the timeout at the
    pruning of a pass, the table is emptied and the pass sleeps 0.1 s and
    ends at its [continue]: no election (the role flag keeps its value), no
    LED change, no tick (the tick timer is not restarted), no state
    publication; the heartbeat of step 2 is attempted as in any pass. *)
Theorem run_steps_all_stale (MY_ID : NodeId) (now now_prune : time)
    (hb_ok pub_ok : bool) (nd : node) (vars : loop_vars) :
  (∀ id t, active_picos nd !! id = Some t →
           (PICO_TIMEOUT_S < now_prune - t)%Qc) →
  ∃ vars' out,
    run_steps MY_ID now now_prune hb_ok pub_ok nd vars
    = Some ({| active_picos := ∅;
               current_ball_state := current_ball_state nd |},
            vars', out, Continue)
    ∧ i_am_main vars' = i_am_main vars
    ∧ last_physics_tick vars' = last_physics_tick vars
    ∧ last_heartbeat_time vars' = heartbeat_time now vars
    ∧ Sleep (Q2Qc (1 # 10)) ∈ out
    ∧ (∀ on, Led on ∉ out)
    ∧ (∀ payload retain, Emit (Publish TOPIC_BALL_POS payload retain) ∉ out)
    ∧ (∀ o, o ∈ heartbeat_attempt MY_ID now hb_ok vars → o ∈ out).
Proof.
  intros Hstale.
  assert (Hp : prune_picos now_prune (active_picos nd) = ∅).
  { apply map_eq. intros id. rewrite lookup_prune_picos, lookup_empty.
    destruct (active_picos nd !! id) as [t|] eqn:E; simpl; [|done].
    rewrite decide_True; [done|]. by apply (Hstale id). }
  exists {| i_am_main := i_am_main vars;
            last_heartbeat_time := heartbeat_time now vars;
            last_physics_tick := last_physics_tick vars |},
         (heartbeat_attempt MY_ID now hb_ok vars ++ [Sleep (Q2Qc (1 # 10))]).
  split.
  { unfold run_steps, heartbeat_attempt, heartbeat_time. rewrite Hp.
    by destruct (decide (HEARTBEAT_INTERVAL_S < _)%Qc). }
  split; [done|]. split; [done|]. split; [done|].
  split; [apply elem_of_app; right; by left|].
  split; [|split].
  - intros on [Hin|Hin%list_elem_of_singleton]%elem_of_app; [|done].
    by destruct (elem_of_heartbeat_attempt _ _ _ _ _ Hin)
      as (_ & [(_ & ?)|(_ & ?)]).
  - intros payload retain [Hin|Hin%list_elem_of_singleton]%elem_of_app;
      [|done].
    by destruct (elem_of_heartbeat_attempt _ _ _ _ _ Hin)
      as (_ & [(_ & ?)|(_ & ?)]).
  - intros o Hin. apply elem_of_app. by left.
Qed.

Lemma run_steps_all_stale_witness :
  let nd := {| active_picos := {[0 := Qc_of_Z 1; 1 := Qc_of_Z 2]};
               current_ball_state := json_of_state (initial_ball_state 0) |} in
  let vars := {| i_am_main := true; last_heartbeat_time := Qc_of_Z 9;
                 last_physics_tick := Qc_of_Z 9 |} in
  ∃ vars' out,
    run_steps 0 (Qc_of_Z 10) (Qc_of_Z 10) true true nd vars
    = Some ({| active_picos := ∅;
               current_ball_state := current_ball_state nd |},
            vars', out, Continue)
    ∧ i_am_main vars' = true
    ∧ last_physics_tick vars' = Qc_of_Z 9.
Proof.
  intros nd vars.
  destruct (run_steps_all_stale 0 (Qc_of_Z 10) (Qc_of_Z 10) true true nd vars)
    as (vars' & out & Hrun & Hm & Ht & _).
  { intros id t Hl. subst nd. cbn [active_picos] in Hl.
    destruct (decide (id = 0)) as [->|H0].
    { rewrite lookup_insert_eq in Hl. injection Hl as <-. by vm_compute. }
    rewrite lookup_insert_ne in Hl by done.
    destruct (decide (id = 1)) as [->|H1].
    { rewrite lookup_singleton_eq in Hl. injection Hl as <-. by vm_compute. }
    by rewrite lookup_singleton_ne in Hl. }
  exists vars', out. split; [exact Hrun|]. split; [exact Hm|exact Ht].
Defined.

(** X19: a pass sends at most the heartbeat [{"id": MY_ID}], without retain,
    and only when more than one interval has gone by since the last
    attempt; an attempt restarts the interval whether the publication
    succeeds or fails, and a failure is printed. *)
Theorem run_steps_heartbeat (MY_ID : NodeId) (now now_prune : time)
    (hb_ok pub_ok : bool) (nd : node) (vars : loop_vars)
    (nd' : node) (vars' : loop_vars) (out : list output) (e : pass_end) :
  run_steps MY_ID now now_prune hb_ok pub_ok nd vars
  = Some (nd', vars', out, e) →
  (∀ payload retain,
     Emit (Publish TOPIC_HEARTBEAT payload retain) ∈ out →
     payload = JObj [("id", JNum MY_ID)] ∧ retain = false
     ∧ hb_ok = true ∧ heartbeat_due now vars)
  ∧ (heartbeat_due now vars →
     last_heartbeat_time vars' = now
     ∧ if hb_ok
       then Emit (Publish TOPIC_HEARTBEAT (JObj [("id", JNum MY_ID)]) false)
            ∈ out
       else PrintHeartbeatError ∈ out)
  ∧ (¬ heartbeat_due now vars →
     last_heartbeat_time vars' = last_heartbeat_time vars
     ∧ PrintHeartbeatError ∉ out).
Proof.
  intros Hrun. split; [|split].
  - intros payload retain Hin.
    destruct (run_steps_published _ _ _ _ _ _ _ _ _ _ _ _ _ _ Hrun Hin)
      as [(_ & ? & ? & ? & ?)|(? & _)]; done.
  - intros Hd.
    assert (Ha : heartbeat_attempt MY_ID now hb_ok vars
                 = publish_heartbeat MY_ID hb_ok).
    { unfold heartbeat_attempt. by rewrite decide_True. }
    assert (Hin : (if hb_ok
       then Emit (Publish TOPIC_HEARTBEAT (JObj [("id", JNum MY_ID)]) false)
       else PrintHeartbeatError) ∈ heartbeat_attempt MY_ID now hb_ok vars).
    { rewrite Ha. unfold publish_heartbeat. destruct hb_ok; left. }
    assert (Ht : heartbeat_time now vars = now).
    { unfold heartbeat_time. by rewrite decide_True. }
    destruct (run_steps_inv _ _ _ _ _ _ _ _ _ _ _ Hrun)
      as [(_ & _ & _ & -> & ->)|[(_ & _ & _ & _ & -> & ->)
         |[(_ & _ & _ & _ & _ & -> & ->)
          |(_ & _ & _ & _ & -> & sent & _ & ->)]]];
      (split; [done|]); destruct hb_ok; apply elem_of_app; by left.
  - intros Hd.
    assert (Ha : heartbeat_attempt MY_ID now hb_ok vars = []).
    { unfold heartbeat_attempt. by rewrite decide_False. }
    assert (Ht : heartbeat_time now vars = last_heartbeat_time vars).
    { unfold heartbeat_time. by rewrite decide_False. }
    destruct (run_steps_inv _ _ _ _ _ _ _ _ _ _ _ Hrun)
      as [(_ & _ & _ & -> & ->)|[(_ & _ & _ & _ & -> & ->)
         |[(_ & _ & _ & _ & _ & -> & ->)
          |(_ & _ & _ & _ & -> & sent & _ & ->)]]];
      (split; [done|]); rewrite Ha; simpl;
      rewrite ?not_elem_of_cons; repeat split; try done;
      try apply not_elem_of_nil.
    intros (eff & ? & _)%list_elem_of_fmap. done.
Qed.

Lemma run_steps_heartbeat_witness :
  let nd := {| active_picos := {[0 := Qc_of_Z 9]};
               current_ball_state := json_of_state (initial_ball_state 0) |} in
  let vars := {| i_am_main := false; last_heartbeat_time := Qc_of_Z 8;
                 last_physics_tick := Qc_of_Z 0 |} in
  ∃ nd' vars' out e,
    run_steps 0 (Qc_of_Z 10) (Qc_of_Z 10) false true nd vars
    = Some (nd', vars', out, e)
    ∧ last_heartbeat_time vars' = Qc_of_Z 10 ∧ PrintHeartbeatError ∈ out.
Proof.
  intros nd vars.
  destruct (run_steps 0 (Qc_of_Z 10) (Qc_of_Z 10) false true nd vars)
    as [[[[nd' vars'] out] e]|] eqn:Hrun; [|by vm_compute in Hrun].
  exists nd', vars', out, e. split; [done|].
  destruct (run_steps_heartbeat _ _ _ _ _ _ _ _ _ _ _ Hrun) as (_ & Hd & _).
  apply Hd. by vm_compute.
Defined.

(** ** A whole pass: incoming message, steps 2 to 5, display logic *)

(** A pass that does not tick, on a table that pruning leaves with
    somebody, goes to the display logic with the cached state as it was. *)
Lemma run_steps_no_tick (MY_ID : NodeId) (now now_prune : time)
    (hb_ok pub_ok : bool) (nd : node) (vars : loop_vars) :
  prune_picos now_prune (active_picos nd) ≠ ∅ →
  ¬ (least_live MY_ID (prune_picos now_prune (active_picos nd))
     ∧ tick_due now vars) →
  ∃ vars' out,
    run_steps MY_ID now now_prune hb_ok pub_ok nd vars
    = Some ({| active_picos := prune_picos now_prune (active_picos nd);
               current_ball_state := current_ball_state nd |},
            vars', out, ToDisplay).
Proof.
  intros Hne Hno. unfold run_steps.
  destruct (decide (HEARTBEAT_INTERVAL_S < _)%Qc);
    cbn [active_picos];
    (rewrite decide_False by done;
     destruct (main_pico_id_minimum _ Hne) as (leader & Hl & _);
     rewrite Hl; simpl;
     pose proof (least_live_leader MY_ID _ leader Hl) as Hll;
     case_bool_decide as Hm; [|by eexists _, _];
     destruct (decide (GAME_TICK_S < _)%Qc) as [Ht|Ht]; [|by eexists _, _];
     exfalso; apply Hno; split; [by apply Hll|done]).
Qed.

(** A pass of the least live node whose tick is due runs the physics
    loop. *)
Lemma run_steps_tick (MY_ID : NodeId) (now now_prune : time)
    (hb_ok pub_ok : bool) (nd : node) (vars : loop_vars) :
  least_live MY_ID (prune_picos now_prune (active_picos nd)) →
  tick_due now vars →
  run_steps MY_ID now now_prune hb_ok pub_ok nd vars
  = '(nd', sent) ←
      main_physics_loop pub_ok
        {| active_picos := prune_picos now_prune (active_picos nd);
           current_ball_state := current_ball_state nd |};
    Some (nd',
          {| i_am_main := true;
             last_heartbeat_time := heartbeat_time now vars;
             last_physics_tick := now |},
          heartbeat_attempt MY_ID now hb_ok vars
            ++ [Led true] ++ (Emit <$> sent),
          ToDisplay).
Proof.
  intros Hll Ht. unfold run_steps, heartbeat_time, heartbeat_attempt.
  assert (Hne : prune_picos now_prune (active_picos nd) ≠ ∅).
  { intros H0. destruct Hll as [Hin _]. rewrite H0 in Hin.
    by apply not_elem_of_empty in Hin. }
  destruct (main_pico_id_minimum _ Hne) as (leader & Hl & _).
  apply (least_live_leader MY_ID _ leader Hl) in Hll as <-.
  destruct (decide (HEARTBEAT_INTERVAL_S < _)%Qc);
    cbn [active_picos];
    rewrite decide_False by done; rewrite Hl; simpl;
    rewrite bool_decide_true by done;
    by rewrite decide_True by done.
Qed.

Lemma py_eq_encoded_ids (ids : list NodeId) :
  py_eq (JArr (JNum <$> ids)) (JArr (JNum <$> ids)) = true.
Proof.
  simpl. induction ids as [|a ids IH]; [done|]. csimpl.
  by rewrite Z.eqb_refl.
Qed.

Lemma py_eq_json_of_state (st : ball_state) :
  py_eq (json_of_state st) (json_of_state st) = true.
Proof.
  pose proof (py_eq_encoded_ids (order st)) as Ho.
  unfold json_of_state, json_of_pair. simpl in *.
  by rewrite !Z.eqb_refl, Ho.
Qed.

(** The copy of an encoded state, read through the lists it shares with the
    cached state. *)
Lemma drawn_value_aliased (cur drawn : ball_state) :
  drawn_value (json_of_state cur)
    {| last_drawn_state := json_of_state drawn; aliased := true |}
  = json_of_state {| pos := pos cur; vel := vel cur;
                     total_size := total_size drawn;
                     order := order drawn |}.
Proof. reflexivity. Qed.

Lemma drawn_value_container (cur : json) (dv : display_vars) :
  container (last_drawn_state dv) → container (drawn_value cur dv).
Proof.
  unfold drawn_value. destruct (aliased dv); [|done].
  destruct cur; try done. by destruct (last_drawn_state dv).
Qed.

Lemma py_eq_scalar_container (a b : json) :
  ¬ container a → container b → py_eq a b = false.
Proof. by destruct a, b. Qed.

(** X20: a state message whose payload parses to [null], a boolean, a
    number or a string resets a node that gets it: on a table that pruning
    leaves with somebody, in a pass that does not tick, the display logic
    finds the cached state different from the last one drawn, the display
    function prints its error, and the shallow copy raises outside any
    handler of the pass. *)
Theorem run_pass_scalar_state_resets (loads : string → option json)
    (MY_ID : NodeId) (msg : string) (now_cb now now_prune : time)
    (hb_ok pub_ok : bool) (s : loop_state) (data : json) :
  loads msg = Some data →
  ¬ container data →
  container (last_drawn_state (ls_display s)) →
  prune_picos now_prune (active_picos (ls_node s)) ≠ ∅ →
  ¬ (least_live MY_ID (prune_picos now_prune (active_picos (ls_node s)))
     ∧ tick_due now (ls_vars s)) →
  run_pass loads MY_ID (Some (TOPIC_BALL_POS, msg)) now_cb now now_prune
    hb_ok pub_ok s
  = Reset
  ∧ update_display_cached MY_ID (i_am_main (ls_vars s)) data = PrintedError.
Proof.
  intros Hl Hdata Hdrawn Hne Hno. split; [|by destruct data].
  unfold run_pass, check_msg, rebinds, unshare.
  rewrite (mqtt_callback_state loads msg now_cb _ data Hl).
  rewrite !bool_decide_true by (by rewrite ?Hl). cbn [andb].
  destruct (run_steps_no_tick MY_ID now now_prune hb_ok pub_ok
              {| active_picos := active_picos (ls_node s);
                 current_ball_state := data |} (ls_vars s) Hne Hno)
    as (vars' & out & ->).
  cbn [current_ball_state]. unfold display_logic.
  rewrite py_eq_scalar_container; [by destruct data|done|].
  unfold drawn_value at 1. cbn [aliased last_drawn_state].
  by apply drawn_value_container.
Qed.

Lemma run_pass_scalar_state_resets_witness :
  let loads := λ m, if decide (m = "5") then Some (JNum 5) else None in
  let s := {| ls_node := {| active_picos := {[0 := Qc_of_Z 9]};
                            current_ball_state :=
                              json_of_state (initial_ball_state 1) |};
              ls_vars := {| i_am_main := false;
                            last_heartbeat_time := Qc_of_Z 9;
                            last_physics_tick := Qc_of_Z 0 |};
              ls_display := {| last_drawn_state := JObj [];
                               aliased := false |} |} in
  run_pass loads 1 (Some (TOPIC_BALL_POS, "5")) (Qc_of_Z 10) (Qc_of_Z 10)
    (Qc_of_Z 10) true true s
  = Reset.
Proof.
  intros loads s.
  refine (proj1 (run_pass_scalar_state_resets loads 1 "5" (Qc_of_Z 10)
                   (Qc_of_Z 10) (Qc_of_Z 10) true true s (JNum 5)
                   eq_refl _ I _ _)).
  - by intros [].
  - by vm_compute.
  - intros [[Hin _] _]. by vm_compute in Hin.
Defined.

Lemma mqtt_callback_prints (loads : string → option json)
    (topic msg : string) (now : time) (nd nd' : node) (printed : list effect)
    (eff : effect) :
  mqtt_callback loads topic msg now nd = Handled nd' printed →
  eff ∈ printed → ∃ e, eff = PrintCallbackError e.
Proof.
  unfold mqtt_callback. intros Hcb.
  destruct (loads msg) as [data|].
  2:{ injection Hcb as _ <-. intros ->%list_elem_of_singleton. eauto. }
  destruct (decide (topic = TOPIC_HEARTBEAT)) as [Hhb|Hhb].
  - destruct (get data "id") as [x|[| | | | |]]; try done;
      injection Hcb as _ <-;
      first [ by intros ?%elem_of_nil
            | intros ->%list_elem_of_singleton; eauto ].
  - destruct (decide (topic = TOPIC_BALL_POS)) as [Hst|Hst];
      injection Hcb as _ <-; by intros ?%elem_of_nil.
Qed.

(** The parts of a pass that returns. *)
Lemma run_pass_inv (loads : string → option json) (MY_ID : NodeId)
    (incoming : option (string * string)) (now_cb now now_prune : time)
    (hb_ok pub_ok : bool) (s s' : loop_state) (out : list output)
    (screens : list shown) :
  run_pass loads MY_ID incoming now_cb now now_prune hb_ok pub_ok s
  = Ok (s', out, screens) →
  ∃ nd printed out' e,
    check_msg loads incoming now_cb (ls_node s) = Handled nd printed
    ∧ run_steps MY_ID now now_prune hb_ok pub_ok nd (ls_vars s)
      = Some (ls_node s', ls_vars s', out', e)
    ∧ (∀ eff, eff ∈ printed → ∃ x, eff = PrintCallbackError x)
    ∧ let dv := unshare (rebinds loads incoming)
                  (current_ball_state (ls_node s)) (ls_display s) in
      (e = Continue ∧ screens = [] ∧ ls_display s' = dv
       ∧ out = (Emit <$> printed) ++ out')
      ∨ (e = ToDisplay
         ∧ display_logic MY_ID (i_am_main (ls_vars s'))
             (current_ball_state (ls_node s')) dv
           = Ok (ls_display s', screens)
         ∧ out = (Emit <$> printed) ++ out' ++ [Sleep (Q2Qc (1 # 100))]).
Proof.
  unfold run_pass. intros Hrun.
  destruct (check_msg loads incoming now_cb (ls_node s))
    as [nd printed|] eqn:Hcb; [|done].
  destruct (run_steps _ _ _ _ _ _ _) as [[[[nd' vars'] out'] e]|] eqn:Hsteps;
    [|done].
  assert (Hpr : ∀ eff, eff ∈ printed → ∃ x, eff = PrintCallbackError x).
  { intros eff Hin. unfold check_msg in Hcb.
    destruct incoming as [[topic msg]|].
    - by eapply mqtt_callback_prints.
    - injection Hcb as _ <-. by apply elem_of_nil in Hin. }
  destruct e.
  - destruct (display_logic _ _ _ _) as [[dv' screens']| |] eqn:Hd;
      [|done..].
    injection Hrun as <- <- <-. exists nd, printed, out', ToDisplay.
    split; [done|]. split; [done|]. split; [done|]. right. by split.
  - injection Hrun as <- <- <-. exists nd, printed, out', Continue.
    split; [done|]. split; [done|]. split; [done|]. by left.
Qed.

(** X21: [last_drawn_state] stays a dict or a list, as it is when the loop
    starts.  Only the rebinding of step 1 and the display logic of step 6
    bear on it: both keep it a dict or a list, also when read through the
    lists it shares with the cached state, for every cached state and
    every role, whatever message the handler has seen; hence so does every
    pass of the model that returns. *)
Theorem run_pass_drawn_container (loads : string → option json)
    (MY_ID : NodeId) (incoming : option (string * string))
    (now_cb now now_prune : time) (hb_ok pub_ok : bool) (s : loop_state)
    (rebound main : bool) (cur cur' : json) :
  container (last_drawn_state (ls_display s)) →
  let dv := unshare rebound cur (ls_display s) in
  container (last_drawn_state dv)
  ∧ container (drawn_value cur' dv)
  ∧ (∀ dv' screens,
       display_logic MY_ID main cur' dv = Ok (dv', screens) →
       container (last_drawn_state dv'))
  ∧ (∀ s' out screens,
       run_pass loads MY_ID incoming now_cb now now_prune hb_ok pub_ok s
       = Ok (s', out, screens) →
       container (last_drawn_state (ls_display s'))).
Proof.
  intros Hc dv.
  assert (Hun : ∀ b c, container (last_drawn_state
                                    (unshare b c (ls_display s)))).
  { intros b c. unfold unshare. destruct b; [|done].
    by apply drawn_value_container. }
  assert (Hdl : ∀ me m c d d' screens,
    container (last_drawn_state d) →
    display_logic me m c d = Ok (d', screens) →
    container (last_drawn_state d')).
  { intros me m c d d' screens Hd. unfold display_logic.
    destruct (py_eq _ _); [by intros [= <- _]|].
    destruct c; try done; by intros [= <- _]. }
  split; [apply Hun|]. split; [apply drawn_value_container, Hun|]. split.
  - intros dv' screens. apply Hdl, Hun.
  - intros s' out screens Hrun.
    destruct (run_pass_inv _ _ _ _ _ _ _ _ _ _ _ _ Hrun)
      as (nd & printed & out' & e & _ & _ & _ & Hcases).
    destruct Hcases as [(_ & _ & -> & _)|(_ & Hd & _)]; [apply Hun|].
    eapply Hdl; [|exact Hd]. apply Hun.
Qed.

Lemma run_pass_drawn_container_witness :
  let st := BallState (10, 5) (1, 1) (16, 24) [0; 1; 2] in
  let loads := λ m, if decide (m = "state") then Some (json_of_state st)
                    else None in
  let s := {| ls_node := {| active_picos := {[0 := Qc_of_Z 9;
                                               1 := Qc_of_Z 9]};
                            current_ball_state :=
                              json_of_state (initial_ball_state 1) |};
              ls_vars := {| i_am_main := false;
                            last_heartbeat_time := Qc_of_Z 10;
                            last_physics_tick := Qc_of_Z 0 |};
              ls_display := {| last_drawn_state := JObj [];
                               aliased := false |} |} in
  ∃ s' out screen,
    run_pass loads 1 (Some (TOPIC_BALL_POS, "state")) (Qc_of_Z 10)
      (Qc_of_Z 10) (Qc_of_Z 10) true true s
    = Ok (s', out, [screen])
    ∧ last_drawn_state (ls_display s') = json_of_state st
    ∧ container (last_drawn_state (ls_display s')).
Proof.
  intros st loads s.
  destruct (run_pass loads 1 (Some (TOPIC_BALL_POS, "state")) (Qc_of_Z 10)
              (Qc_of_Z 10) (Qc_of_Z 10) true true s)
    as [[[s' out] screens]| |] eqn:Hrun;
    [|by vm_compute in Hrun..].
  pose proof (proj2 (proj2 (proj2 (run_pass_drawn_container loads 1
                (Some (TOPIC_BALL_POS, "state")) (Qc_of_Z 10) (Qc_of_Z 10)
                (Qc_of_Z 10) true true s false false JNull JNull I)))
                s' out screens Hrun) as Hc.
  vm_compute in Hrun. injection Hrun as <- <- <-.
  eexists _, _, _. split; [reflexivity|]. split; [reflexivity|exact Hc].
Defined.

(** X22: a pass that leaves the table empty has elected nobody, has run no
    tick and has drawn nothing: the role flag and the tick timer are
    unchanged, no state is published, the LED is not driven, and the display
    logic is skipped even if a new state has just arrived. *)
Theorem run_pass_empty_table (loads : string → option json)
    (MY_ID : NodeId) (incoming : option (string * string))
    (now_cb now now_prune : time) (hb_ok pub_ok : bool)
    (s s' : loop_state) (out : list output) (screens : list shown) :
  run_pass loads MY_ID incoming now_cb now now_prune hb_ok pub_ok s
  = Ok (s', out, screens) →
  active_picos (ls_node s') = ∅ →
  screens = []
  ∧ i_am_main (ls_vars s') = i_am_main (ls_vars s)
  ∧ last_physics_tick (ls_vars s') = last_physics_tick (ls_vars s)
  ∧ (∀ payload retain,
       Emit (Publish TOPIC_BALL_POS payload retain) ∉ out)
  ∧ (∀ on, Led on ∉ out).
Proof.
  intros Hrun Hempty.
  destruct (run_pass_inv _ _ _ _ _ _ _ _ _ _ _ _ Hrun)
    as (nd & printed & out' & e & _ & Hsteps & Hpr & Hcases).
  destruct (run_steps_inv _ _ _ _ _ _ _ _ _ _ _ Hsteps)
    as [(_ & -> & _ & Hv & ->)|[(Hne & _ & _ & Hn & _)
       |[(Hne & _ & _ & _ & Hn & _)
        |(Hne & _ & _ & _ & _ & sent & Hp & _)]]].
  - destruct Hcases as [(_ & -> & _ & ->)|(? & _)]; [|done].
    rewrite Hv. cbn [i_am_main last_physics_tick].
    split; [done|]. split; [done|]. split; [done|].
    assert (Hout : ∀ o, o ∈ (Emit <$> printed)
                          ++ heartbeat_attempt MY_ID now hb_ok (ls_vars s)
                          ++ [Sleep (Q2Qc (1 # 10))] →
       (∃ x, o = Emit (PrintCallbackError x))
       ∨ o = PrintHeartbeatError
       ∨ (∃ p r, o = Emit (Publish TOPIC_HEARTBEAT p r))
       ∨ (∃ t, o = Sleep t)).
    { intros o [Hin|[Hin|Hin]%elem_of_app]%elem_of_app.
      - apply list_elem_of_fmap in Hin as (eff & -> & Hin).
        destruct (Hpr _ Hin) as [x ->]. left. eauto.
      - apply elem_of_heartbeat_attempt in Hin as [_ [[_ ->]|[_ ->]]];
          [right; right; left; eauto|by right; left].
      - apply list_elem_of_singleton in Hin as ->.
        right; right; right. eauto. }
    split.
    + intros payload retain Hin.
      destruct (Hout _ Hin) as [[? ?]|[?|[(? & ? & ?)|[? ?]]]]; done.
    + intros on Hin.
      destruct (Hout _ Hin) as [[? ?]|[?|[(? & ? & ?)|[? ?]]]]; done.
  - exfalso. apply Hne. rewrite Hn in Hempty. exact Hempty.
  - exfalso. apply Hne. rewrite Hn in Hempty. exact Hempty.
  - exfalso. apply Hne. apply main_physics_loop_table in Hp.
    rewrite Hp in Hempty. exact Hempty.
Qed.

Lemma run_pass_empty_table_witness :
  ∃ s' out,
    run_pass loads_example 0 None (Qc_of_Z 1) (Qc_of_Z 2) (Qc_of_Z 2)
      true true (initial_loop_state 0)
    = Ok (s', out, [])
    ∧ i_am_main (ls_vars s') = false.
Proof.
  destruct (run_pass loads_example 0 None (Qc_of_Z 1) (Qc_of_Z 2)
              (Qc_of_Z 2) true true (initial_loop_state 0))
    as [[[s' out] screens]| |] eqn:Hrun;
    [|by vm_compute in Hrun..].
  assert (He : active_picos (ls_node s') = ∅).
  { vm_compute in Hrun. by injection Hrun as <- _ _. }
  destruct (run_pass_empty_table _ _ _ _ _ _ _ _ _ _ _ _ Hrun He)
    as (-> & Hm & _).
  exists s', out. split; [done|]. exact Hm.
Defined.

(** X23: the leader does not draw its own tick.  After a state has been
    drawn, the copy kept shares the position and velocity lists with the
    cached state; when a pass without incoming message then ticks under the
    membership the drawn state was made for, the comparison of the display
    logic reads the moved position through the copy, finds the two states
    equal, and prints nothing, although the cached position has moved. *)
Theorem run_pass_own_tick_not_drawn (loads : string → option json)
    (MY_ID : NodeId) (now_cb now now_prune : time) (hb_ok pub_ok : bool)
    (s : loop_state) (st drawn : ball_state) :
  current_ball_state (ls_node s) = json_of_state st →
  ls_display s = {| last_drawn_state := json_of_state drawn;
                    aliased := true |} →
  let picos := prune_picos now_prune (active_picos (ls_node s)) in
  least_live MY_ID picos →
  tick_due now (ls_vars s) →
  total_size drawn
  = (SCREEN_HEIGHT, Z.of_nat (length (sorted (keys picos))) * SCREEN_WIDTH) →
  order drawn = sorted (keys picos) →
  (pub_ok = false →
   total_size st = total_size drawn ∧ order st = order drawn) →
  let st' := tick st (sorted (keys picos)) in
  ∃ s' out,
    run_pass loads MY_ID None now_cb now now_prune hb_ok pub_ok s
    = Ok (s', out, [])
    ∧ ls_display s' = ls_display s
    ∧ current_ball_state (ls_node s')
      = json_of_state {| pos := pos st'; vel := vel st';
                         total_size := total_size drawn;
                         order := order drawn |}.
Proof.
  intros Hcur Hdv picos Hll Ht Hsize Horder Hfail st'.
  assert (Hne : picos ≠ ∅).
  { intros H0. destruct Hll as [Hin _]. rewrite H0 in Hin.
    by apply not_elem_of_empty in Hin. }
  unfold run_pass, check_msg, rebinds, unshare.
  rewrite (run_steps_tick MY_ID now now_prune hb_ok pub_ok _ _ Hll Ht).
  fold picos.
  rewrite (main_physics_loop_encoded pub_ok
             {| active_picos := picos;
                current_ball_state := current_ball_state (ls_node s) |}
             st Hcur Hne).
  cbn [active_picos]. fold st'.
  assert (Hnew : (if pub_ok
                  then json_of_state st'
                  else json_of_state {| pos := pos st'; vel := vel st';
                                        total_size := total_size st;
                                        order := order st |})
                 = json_of_state {| pos := pos st'; vel := vel st';
                                    total_size := total_size drawn;
                                    order := order drawn |}).
  { destruct pub_ok.
    - f_equal. unfold st'. rewrite tick_eq. cbn [total_size order].
      by rewrite Hsize, Horder.
    - destruct Hfail as [-> ->]; done. }
  destruct pub_ok; simpl; cbn [current_ball_state] in *;
    rewrite Hnew, Hdv; unfold display_logic;
    rewrite drawn_value_aliased; cbn [pos vel total_size order];
    rewrite py_eq_json_of_state; by eexists _, _.
Qed.

Lemma run_pass_own_tick_not_drawn_witness :
  let st := BallState (3, 4) (1, 1) (16, 8) [0] in
  let s := {| ls_node := {| active_picos := {[0 := Qc_of_Z 9]};
                            current_ball_state := json_of_state st |};
              ls_vars := {| i_am_main := true;
                            last_heartbeat_time := Qc_of_Z 10;
                            last_physics_tick := Qc_of_Z 9 |};
              ls_display := {| last_drawn_state := json_of_state st;
                               aliased := true |} |} in
  ∃ s' out,
    run_pass loads_example 0 None (Qc_of_Z 10) (Qc_of_Z 10) (Qc_of_Z 10)
      true true s
    = Ok (s', out, [])
    ∧ current_ball_state (ls_node s')
      = json_of_state (BallState (4, 5) (1, 1) (16, 8) [0]).
Proof.
  intros st s.
  destruct (run_pass_own_tick_not_drawn loads_example 0 (Qc_of_Z 10)
              (Qc_of_Z 10) (Qc_of_Z 10) true true s st st eq_refl eq_refl)
    as (s' & out & Hrun & _ & Hcur).
  - split; [by vm_compute|]. intros id Hid. vm_compute in Hid.
    destruct id as [|[]|]; by try discriminate.
  - by vm_compute.
  - by vm_compute.
  - by vm_compute.
  - done.
  - exists s', out. split; [exact Hrun|]. rewrite Hcur. by vm_compute.
Defined.

(** X24: in a pass that does not tick, on a table that pruning leaves with
    somebody, a state message that parses to a dict becomes the cached
    state, and it is drawn in that pass exactly when it differs in value
    from what the last drawn state shows at that time; once drawn, it is
    the state held as last drawn. *)
Theorem run_pass_draws_received (loads : string → option json)
    (MY_ID : NodeId) (msg : string) (now_cb now now_prune : time)
    (hb_ok pub_ok : bool) (s : loop_state) (fields : list (string * json)) :
  loads msg = Some (JObj fields) →
  prune_picos now_prune (active_picos (ls_node s)) ≠ ∅ →
  ¬ (least_live MY_ID (prune_picos now_prune (active_picos (ls_node s)))
     ∧ tick_due now (ls_vars s)) →
  let shown_before :=
    drawn_value (current_ball_state (ls_node s)) (ls_display s) in
  ∃ s' out,
    run_pass loads MY_ID (Some (TOPIC_BALL_POS, msg)) now_cb now now_prune
      hb_ok pub_ok s
    = Ok (s', out,
          if py_eq (JObj fields) shown_before then []
          else [update_display_cached MY_ID (i_am_main (ls_vars s'))
                  (JObj fields)])
    ∧ current_ball_state (ls_node s') = JObj fields
    ∧ ls_display s'
      = if py_eq (JObj fields) shown_before
        then {| last_drawn_state := shown_before; aliased := false |}
        else {| last_drawn_state := JObj fields; aliased := true |}.
Proof.
  intros Hl Hne Hno shown_before.
  unfold run_pass, check_msg, rebinds, unshare.
  rewrite (mqtt_callback_state loads msg now_cb _ _ Hl).
  rewrite !bool_decide_true by (by rewrite ?Hl). cbn [andb].
  destruct (run_steps_no_tick MY_ID now now_prune hb_ok pub_ok
              {| active_picos := active_picos (ls_node s);
                 current_ball_state := JObj fields |} (ls_vars s) Hne Hno)
    as (vars' & out & ->).
  cbn [current_ball_state]. unfold display_logic.
  unfold drawn_value at 1. cbn [aliased last_drawn_state].
  fold shown_before.
  destruct (py_eq (JObj fields) shown_before);
    (eexists (LoopState _ vars' _), _; split; [reflexivity|done]).
Qed.

Lemma run_pass_draws_received_witness :
  let st := BallState (10, 5) (1, 1) (16, 24) [0; 1; 2] in
  let loads := λ m, if decide (m = "state") then Some (json_of_state st)
                    else None in
  let s := {| ls_node := {| active_picos := {[0 := Qc_of_Z 9;
                                               1 := Qc_of_Z 9]};
                            current_ball_state :=
                              json_of_state (initial_ball_state 1) |};
              ls_vars := {| i_am_main := false;
                            last_heartbeat_time := Qc_of_Z 10;
                            last_physics_tick := Qc_of_Z 0 |};
              ls_display := {| last_drawn_state := JObj [];
                               aliased := false |} |} in
  ∃ s' out,
    run_pass loads 1 (Some (TOPIC_BALL_POS, "state")) (Qc_of_Z 10)
      (Qc_of_Z 10) (Qc_of_Z 10) true true s
    = Ok (s', out,
          [update_display_cached 1 (i_am_main (ls_vars s'))
             (json_of_state st)])
    ∧ ls_display s'
      = {| last_drawn_state := json_of_state st; aliased := true |}.
Proof.
  intros st loads s.
  destruct (run_pass_draws_received loads 1 "state" (Qc_of_Z 10)
              (Qc_of_Z 10) (Qc_of_Z 10) true true s _ eq_refl)
    as (s' & out & Hrun & _ & Hdv).
  - by vm_compute.
  - intros [[_ Hle] _]. specialize (Hle 0). vm_compute in Hle.
    by apply Hle.
  - exists s', out. split; [exact Hrun|exact Hdv].
Defined.
